(** * update-translations.py: format-specifier checking and repair

    A shallow embedding of the post-processing logic of
    [update-translations.py]: specifier extraction and classification, the
    consistency check, the repair heuristics applied to invalid translations,
    the address filter and the pruning of translation documents.

    Python [str] values are modelled as [string] (a sequence of [ascii]
    characters), a one-character string such as [s[i]] as an [ascii], the
    value [None] of an optional text as [None : option string], a Python
    [set] as a [gset], an attribute dictionary as a [gmap], and an uncaught
    exception as the [Raise] outcome of the [Exc] monad. *)

From Stdlib Require Import Ascii String ZArith Lia.
From Stdlib.Strings Require Byte.
From stdpp Require Import base decidable option list gmap strings pretty.

Local Open Scope Z_scope.

(** ** Exceptions *)

Inductive exn : Set :=
| IndexError
| AssertionError
| AttributeError.

Inductive Exc (A : Type) : Type :=
| Ok (a : A)
| Raise (e : exn).
Arguments Ok {A} a.
Arguments Raise {A} e.

(** Sequencing: an exception raised by the first computation propagates.
    With these instances the notation [x ← m; k] is that of stdpp. *)
#[global] Instance Exc_ret : MRet Exc := λ A a, Ok a.
#[global] Instance Exc_bind : MBind Exc := λ A B k m,
  match m with
  | Ok a => k a
  | Raise e => Raise e
  end.

(** ** The string operations of Python used by the script *)

Module Py.

(** [s.find(sub, start)]: the lowest index at or after [start] where
    [sub] occurs in [s], and [-1] when there is none.  Every [sub] the
    script searches for is non-empty. *)
Definition find (s sub : string) (start : nat) : Z :=
  match String.index start sub s with
  | Some i => Z.of_nat i
  | None => -1
  end.

(** [s[i]] for an index [i >= 0]; out of range raises [IndexError]. *)
Definition getitem (s : string) (i : Z) : Exc ascii :=
  match String.get (Z.to_nat i) s with
  | Some c => Ok c
  | None => Raise IndexError
  end.

(** [s.replace(old, new)] for a non-empty [old]: the occurrences of [old]
    are replaced from left to right without overlap.  [skip] counts the
    characters of an occurrence just replaced that are still to be
    passed over. *)
Fixpoint replace_from (skip : nat) (old new s : string) : string :=
  match s with
  | EmptyString => EmptyString
  | String c s' =>
      match skip with
      | S k => replace_from k old new s'
      | O =>
          if String.prefix old s
          then new +:+ replace_from (String.length old - 1) old new s'
          else String c (replace_from 0 old new s')
      end
  end.

Definition replace (s old new : string) : string :=
  replace_from 0 old new s.

End Py.

(** ** Constants *)

(** Minimum number of messages for translation to be considered at all *)
Definition MIN_NUM_MESSAGES : nat := 10.

Definition dquote : string := String "034"%char EmptyString.
Definition squote : string := "'".
Definition newline : string := String "010"%char EmptyString.

(** ** Specifier extraction *)

(** The [while True] loop of [find_format_specifiers]; each iteration
    consumes one unit of [fuel].  [None] is returned only when the fuel is
    exhausted, which [find_format_specifiers_loop_fuel] excludes for the
    fuel that [find_format_specifiers] supplies. *)
Fixpoint find_format_specifiers_loop (fuel : nat) (s : string) (pos : nat)
    (specifiers : list ascii) : option (Exc (list ascii)) :=
  match fuel with
  | O => None
  | S fuel' =>
      let percent := Py.find s "%" pos in
      if percent <? 0 then Some (Ok specifiers)
      else
        match Py.getitem s (percent + 1) with
        | Raise e => Some (Raise e)
        | Ok c =>
            find_format_specifiers_loop fuel' s (Z.to_nat (percent + 2))
              (specifiers ++ [c])
        end
  end.

(** Find all format specifiers in a string. *)
Definition find_format_specifiers (s : string) : Exc (list ascii) :=
  match find_format_specifiers_loop (S (String.length s)) s 0 [] with
  | Some r => r
  | None => Ok []
  end.

(** ** Profile classification *)

Definition profile : Type := gset ascii * list ascii.

Definition numeric_specifiers : gset ascii :=
  {[ "1"; "2"; "3"; "4"; "5"; "6"; "7"; "8"; "9" ]}%char.

(** The [for] loop of [split_format_specifiers], appending each token to
    one of the two lists. *)
Fixpoint split_loop (specifiers : list ascii) (numeric other : list ascii)
    : list ascii * list ascii :=
  match specifiers with
  | [] => (numeric, other)
  | s :: rest =>
      if decide (s ∈ numeric_specifiers)
      then split_loop rest (numeric ++ [s]) other
      else split_loop rest numeric (other ++ [s])
  end.

(** Truth value of a Python list or set: non-empty. *)
Definition list_truthy {A : Type} (l : list A) : bool :=
  match l with [] => false | _ => true end.

Definition set_truthy (X : gset ascii) : bool :=
  bool_decide (X ≠ ∅).

(** Split format specifiers between numeric (Qt) and others (strprintf) *)
Definition split_format_specifiers (specifiers : list ascii) : profile :=
  let '(numeric, other) := split_loop specifiers [] [] in
  let other := if list_truthy numeric then [] else other in
  (list_to_set numeric, other).


Definition profile_of (s : string) : Exc profile :=
  specifiers ← find_format_specifiers s; mret (split_format_specifiers specifiers).

(** ** Consistency check *)

(** Sanitize string for printing *)
Definition sanitize_string (s : string) : string :=
  Py.replace s newline " ".

(** [check_format_specifiers(source, translation, errors, numerus)].  The
    result carries the value assigned to the global [source_f], the returned
    boolean and the list [errors] after the call. *)
Definition check_format_specifiers (source translation : string)
    (errors : list string) (numerus : bool)
    : Exc (profile * bool * list string) :=
  source_f ← profile_of source;
  if set_truthy source_f.1 && list_truthy source_f.2 then Raise AssertionError
  else
    match profile_of translation with
    | Raise IndexError =>
        Ok (source_f, false,
            errors ++ ["Parse error in translation for '"
                       +:+ sanitize_string source +:+ "': '"
                       +:+ sanitize_string translation +:+ "'"])
    | Raise e => Raise e
    | Ok translation_f =>
        if bool_decide (source_f ≠ translation_f) then
          if numerus
             && bool_decide (source_f = (∅, ["n"%char]))
             && bool_decide (translation_f = (∅, []))
             && (Py.find translation "%" 0 =? -1)
          then Ok (source_f, true, errors)
          else
            Ok (source_f, false,
                errors ++ ["Mismatch between '"
                           +:+ sanitize_string source +:+ "' and '"
                           +:+ sanitize_string translation +:+ "'"])
        else Ok (source_f, true, errors)
    end.

(** ** Repair table *)

(** Fix most common (format specifiers related) mistakes *)
Definition fix_string (s : string) : string :=
  let s := Py.replace s "% 1" "%1" in
  let s := Py.replace s "1%" "%1" in
  let s := Py.replace s "$1" "%1" in
  let s := Py.replace s "2%" "%2" in
  let s := Py.replace s "% s" "%s" in
  let s := Py.replace s "s%" "%s" in
  let s := Py.replace s "$s" "%s" in
  let s := Py.replace s "n%" "%n" in
  let s := Py.replace s "$n" "%n" in
  let s := Py.replace s "% n" "%n" in
  Py.replace s "% d" "%d".

(** ** Address filter *)

Definition in_range (lo hi c : ascii) : bool :=
  (nat_of_ascii lo <=? nat_of_ascii c)%nat
  && (nat_of_ascii c <=? nat_of_ascii hi)%nat.

(** The character class [[a-zA-Z0-9]]. *)
Definition alnum (c : ascii) : bool :=
  in_range "a" "z" c || in_range "A" "Z" c || in_range "0" "9" c.

(** Number of leading characters of [s] in the class [[a-zA-Z0-9]]. *)
Fixpoint alnum_run (s : string) : nat :=
  match s with
  | EmptyString => O
  | String c s' => if alnum c then S (alnum_run s') else O
  end.

Fixpoint drop_string (n : nat) (s : string) : string :=
  match n, s with
  | O, _ => s
  | S n', String _ s' => drop_string n' s'
  | S _, EmptyString => EmptyString
  end.

(** Whether [([13]|bc1)[a-zA-Z0-9]{30,}] matches at the start of [s]: the
    first alternative is tried, then the second. *)
Definition ADDRESS_REGEXP_match (s : string) : bool :=
  ((String.prefix "1" s || String.prefix "3" s)
   && (30 <=? alnum_run (drop_string 1 s))%nat)
  || (String.prefix "bc1" s && (30 <=? alnum_run (drop_string 3 s))%nat).

(** [ADDRESS_REGEXP.search(text) is not None]: a match at some position. *)
Fixpoint ADDRESS_REGEXP_search (text : string) : bool :=
  ADDRESS_REGEXP_match text
  || match text with
     | EmptyString => false
     | String _ text' => ADDRESS_REGEXP_search text'
     end.

Definition contains_bitcoin_addr (text : option string) (errors : list string)
    : bool * list string :=
  match text with
  | Some text =>
      if ADDRESS_REGEXP_search text
      then (true,
            errors ++ ["Translation " +:+ dquote +:+ text +:+ dquote
                       +:+ " contains a bitcoin address. This will be removed."])
      else (false, errors)
  | None => (false, errors)
  end.

(** ** Translation documents *)

(** A [translation] element: its attributes, its text and the texts of its
    [numerusform] children. *)
Record Element : Type := mkElement {
  attrib : gmap string string;
  text : option string;
  numerusform : list (option string)
}.

(** [Element.clear()]: no attributes, no text, no children. *)
Definition Element_clear (t : Element) : Element :=
  {| attrib := ∅; text := None; numerusform := [] |}.

Definition Element_set (key value : string) (t : Element) : Element :=
  {| attrib := <[key := value]> (attrib t);
     text := text t; numerusform := numerusform t |}.

Definition Element_get (key : string) (t : Element) : option string :=
  attrib t !! key.

Definition set_text (s : string) (t : Element) : Element :=
  {| attrib := attrib t; text := Some s; numerusform := numerusform t |}.

Definition clear_translation (t : Element) : Element :=
  Element_set "type" "unfinished" (Element_clear t).

(** A [message] element: its [numerus] attribute, the text of its [source]
    child, its [translation] child and its [location] children. *)
Record Message : Type := mkMessage {
  numerus_attr : option string;
  source_text : option string;
  translation_node : Element;
  location : list string
}.

(** A [context] element is the list of its messages, a document the list of
    its contexts. *)
Definition Context : Type := list Message.
Definition Tree : Type := list Context.

(** ** Run state *)

(** The globals [tf] (translations fixed) and [lr] (languages removed), the
    local [have_errors] and the lines printed so far. *)
Record Run : Type := mkRun {
  tf : nat;
  lr : nat;
  have_errors : bool;
  stdout : list string
}.

Definition print (line : string) (r : Run) : Run :=
  {| tf := tf r; lr := lr r; have_errors := have_errors r;
     stdout := stdout r ++ [line] |}.

Definition set_have_errors (r : Run) : Run :=
  {| tf := tf r; lr := lr r; have_errors := true; stdout := stdout r |}.

Definition incr_tf (r : Run) : Run :=
  {| tf := S (tf r); lr := lr r; have_errors := have_errors r;
     stdout := stdout r |}.

Definition incr_lr (r : Run) : Run :=
  {| tf := tf r; lr := S (lr r); have_errors := have_errors r;
     stdout := stdout r |}.

(** ** Repair of an invalid translation *)

(** The successful outcome of a repair pass: the counter is incremented
    and the fixed text is reported. *)
Definition report_fixed (node : Element) (r : Run) : Run :=
  let r := incr_tf r in
  let r := print ("Translation # " +:+ pretty (tf r) +:+ " fixed: "
                  +:+ default "None" (text node)) r in
  print "" r.

(** The failing outcome: the run is flagged and the node is cleared. *)
Definition report_unfixable (line : string) (node : Element) (r : Run)
    : Element * Run :=
  let r := print line r in
  let r := print "" r in
  let r := set_have_errors r in
  (clear_translation node, r).

(** Whether a space is to be added before the [%] of an accepted text. *)
Definition needs_spaces (t : string) : Exc bool :=
  c ← Py.getitem t 0;
  mret (bool_decide (c ≠ "%"%char)
        && (Py.find t " %" 0 =? -1)
        && (Py.find t "(%" 0 =? -1)
        && (Py.find t (squote +:+ "%") 0 =? -1)
        && (Py.find t (dquote +:+ "%") 0 =? -1)).

(** The body of [if not valid:] in [postprocess_translations]. *)
Definition repair (source : string) (source_f : profile) (node : Element)
    (r : Run) : Exc (Element * Run) :=
  match text node with
  | Some t =>
      let node := set_text (fix_string t) node in
      let t := fix_string t in
      translation_f ← profile_of t;
      if bool_decide (source_f = translation_f) then
        spaces ← needs_spaces t;
        let node :=
          if (spaces : bool) then set_text (Py.replace t "%" " %") node else node in
        mret (node, report_fixed node r)
      else if (0 <=? Py.find t "%" 0) && (0 <=? Py.find source "&" 0) then
        let t := Py.replace t "%" "&" in
        let node := set_text t node in
        translation_f ← profile_of t;
        if bool_decide (source_f = translation_f)
        then mret (node, report_fixed node r)
        else mret (report_unfixable "Translation could not be fixed" node r)
      else if (0 <=? Py.find t "%1" 0) && (0 <=? Py.find source "%n" 0) then
        let t := Py.replace t "%1" "%n" in
        let node := set_text t node in
        translation_f ← profile_of t;
        if bool_decide (source_f = translation_f)
        then mret (node, report_fixed node r)
        else mret (report_unfixable "Translation could not be fixed" node r)
      else mret (report_unfixable "Translation could not be fixed" node r)
  | None =>
      mret (report_unfixable
              "TypeNone object, cannot try to fix this string." node r)
  end.

(** ** Processing of a message *)

(** The computation of [valid]: the address filter is consulted only when
    the specifier check succeeds ([and] does not evaluate its right
    operand otherwise). *)
Definition validate (source translation : string) (numerus : bool)
    : Exc (profile * bool * list string) :=
  '(source_f, ok, errors) ← check_format_specifiers source translation [] numerus;
  if (ok : bool) then
    let '(found, errors) := contains_bitcoin_addr (Some translation) errors in
    mret (source_f, negb found, errors)
  else mret (source_f, false, errors).

(** One iteration of [for translation in translations].  A message
    without source text has [source = None], on which
    [find_format_specifiers] raises [AttributeError]. *)
Definition process_translation (filename : string) (numerus : bool)
    (source : option string) (translation : option string)
    (node : Element) (r : Run) : Exc (Element * Run) :=
  match translation with
  | None => mret (node, r)
  | Some translation =>
      match source with
      | None => Raise AttributeError
      | Some source =>
          '(source_f, valid, errors) ← validate source translation numerus;
          let r := foldl (λ r error, print (filename +:+ ": " +:+ error) r)
                     r errors in
          if (valid : bool) then mret (node, r) else repair source source_f node r
      end
  end.

Fixpoint process_translations (filename : string) (numerus : bool)
    (source : option string) (translations : list (option string))
    (node : Element) (r : Run) : Exc (Element * Run) :=
  match translations with
  | [] => mret (node, r)
  | translation :: rest =>
      '(node, r) ← process_translation filename numerus source translation node r;
      process_translations filename numerus source rest node r
  end.

(** The body of [for message in context.findall('message')]: the processed
    message, whether it was removed from its context, and the run. *)
Definition process_message (filename : string) (message : Message) (r : Run)
    : Exc (Message * bool * Run) :=
  let numerus := bool_decide (numerus_attr message = Some "yes") in
  let source := source_text message in
  let node := translation_node message in
  let translations := if numerus then numerusform node else [text node] in
  '(node, r) ← process_translations filename numerus source translations node r;
  let removed := bool_decide (Element_get "type" node = Some "unfinished") in
  mret ({| numerus_attr := numerus_attr message;
           source_text := source_text message;
           translation_node := node;
           location := [] |}, removed, r).

(** The messages of a context that remain after the loop over them. *)
Fixpoint process_context (filename : string) (context : Context) (r : Run)
    : Exc (Context * Run) :=
  match context with
  | [] => mret ([], r)
  | message :: rest =>
      '(message, removed, r) ← process_message filename message r;
      '(rest, r) ← process_context filename rest r;
      mret (if (removed : bool) then rest else message :: rest, r)
  end.

Fixpoint process_contexts (filename : string) (root : Tree) (r : Run)
    : Exc (Tree * Run) :=
  match root with
  | [] => mret ([], r)
  | context :: rest =>
      '(context, r) ← process_context filename context r;
      '(rest, r) ← process_contexts filename rest r;
      mret (context :: rest, r)
  end.

(** ** Processing of a document *)

Definition LOCALE_DIR : string := "src/qt/locale".

Definition num_messages (root : Tree) : nat :=
  foldl (λ n context, foldl (λ n _, S n) n context) O root.

(** The body of the loop over the documents, after parsing: the tree
    written to [filepath], or [None] when the document is not written. *)
Definition process_document (filename : string) (root : Tree) (r : Run)
    : Exc (option Tree * Run) :=
  let filepath := LOCALE_DIR +:+ "/" +:+ filename in
  '(root, r) ← process_contexts filename root r;
  let n := num_messages root in
  if (n <? MIN_NUM_MESSAGES)%nat then
    let r := print ("# " +:+ pretty (lr r) +:+ " : Removing " +:+ filepath
                    +:+ ", as it contains only " +:+ pretty n
                    +:+ " messages") r in
    mret (None, incr_lr r)
  else mret (Some root, r).

(** The documents written, by file name, and the final run state. *)
Fixpoint process_documents (files : list (string * Tree)) (r : Run)
    : Exc (list (string * Tree) * Run) :=
  match files with
  | [] => mret ([], r)
  | (filename, root) :: rest =>
      '(out, r) ← process_document filename root r;
      '(written, r) ← process_documents rest r;
      mret (match (out : option Tree) with
            | Some root => (filename, root) :: written
            | None => written
            end, r)
  end.

Definition postprocess_translations (files : list (string * Tree))
    : Exc (list (string * Tree) * Run) :=
  let r := {| tf := 0; lr := 0; have_errors := false;
              stdout := ["Checking and postprocessing..."] |} in
  process_documents files r.

(** ** Vocabulary of the properties *)

(** The characters of a string. *)
Definition chars (s : string) : list ascii := list_ascii_of_string s.

(** The ASCII digits 1 to 9, by character code. *)
Definition digit_1_9 (c : ascii) : Prop :=
  (49 ≤ nat_of_ascii c ≤ 57)%nat.

#[global] Instance digit_1_9_dec c : Decision (digit_1_9 c).
Proof. unfold digit_1_9. apply _. Defined.

(** A string that uses both conventions: extraction succeeds and among its
    raw specifier tokens there is a positional digit and a token that is
    not one. *)
Definition mixes_conventions (source : string) : Prop :=
  match find_format_specifiers source with
  | Ok specifiers =>
      Exists digit_1_9 specifiers ∧ Exists (λ c, ¬ digit_1_9 c) specifiers
  | Raise _ => False
  end.

#[global] Instance mixes_conventions_dec source :
  Decision (mixes_conventions source).
Proof. unfold mixes_conventions. destruct (find_format_specifiers _); apply _. Defined.

(** A string with an address-like part: a version indicator ([1], [3] or
    [bc1]) followed by at least 30 alphanumeric characters. *)
Definition address_like (text : string) : Prop :=
  ∃ pre v body post,
    text = pre +:+ v +:+ body +:+ post
    ∧ v ∈ ["1"; "3"; "bc1"]
    ∧ (30 ≤ String.length body)%nat
    ∧ Forall (λ c, alnum c = true) (chars body).

(** The finding recorded by the address filter. *)
Definition address_finding (text : string) : string :=
  "Translation " +:+ dquote +:+ text +:+ dquote
  +:+ " contains a bitcoin address. This will be removed.".

(** A message whose translation node carries the unfinished marker. *)
Definition unfinished (message : Message) : Prop :=
  Element_get "type" (translation_node message) = Some "unfinished".

#[global] Instance unfinished_dec message : Decision (unfinished message).
Proof. unfold unfinished. apply _. Defined.

(** [message'] is what the loop body makes of [message] in some run. *)
Definition processed_message (filename : string) (message message' : Message)
    : Prop :=
  ∃ r r' removed,
    process_message filename message r = Ok (message', removed, r').

(** Messages used in the examples. *)
Definition plain_message (source translation : string) : Message :=
  {| numerus_attr := None; source_text := Some source;
     translation_node :=
       {| attrib := ∅; text := Some translation; numerusform := [] |};
     location := [] |}.

Definition untranslated_message (source : string) : Message :=
  {| numerus_attr := None; source_text := Some source;
     translation_node :=
       {| attrib := {[ "type" := "unfinished" ]}; text := None;
          numerusform := [] |};
     location := [] |}.

Definition fresh_run : Run :=
  {| tf := 0; lr := 0; have_errors := false; stdout := [] |}.

(** [sub] occurs somewhere in [s]. *)
Definition occurs (sub s : string) : Prop :=
  ∃ pre post, s = pre +:+ sub +:+ post.

(** The text already starts with the marker, or some marker in it already
    follows a space, an opening parenthesis or a quote. *)
Definition marker_already_spaced (t : string) : Prop :=
  (∃ rest, t = String "%" rest)
  ∨ occurs " %" t ∨ occurs "(%" t
  ∨ occurs (squote +:+ "%") t ∨ occurs (dquote +:+ "%") t.

(** The text with a space put before every marker. *)
Fixpoint spaced (t : string) : string :=
  match t with
  | EmptyString => EmptyString
  | String c t' =>
      if decide (c = "%"%char) then String " " (String "%" (spaced t'))
      else String c (spaced t')
  end.



(** ** Further functions of the script *)

(** Name of source language file *)
Definition SOURCE_LANG : string := "bitcoin_en.ts".

Module Os.

(** [s.endswith(suffix)] *)
Definition endswith (s suffix : string) : bool :=
  bool_decide (chars suffix `suffix_of` chars s).

(** [s[0:-k]] for [k > 0]: the string without its last [k] characters. *)
Definition drop_last (k : nat) (s : string) : string :=
  string_of_list_ascii (take (String.length s - k) (chars s)).

(** [os.path.join(a, b)] with the separator [/]. *)
Definition path_join (a b : string) : string :=
  if String.prefix "/" b then b
  else if bool_decide (a = EmptyString) || endswith a "/" then a +:+ b
  else a +:+ "/" +:+ b.

End Os.

(** [all_ts_files(suffix)] over the names that [os.listdir(LOCALE_DIR)]
    returns: the pairs [(filename, filepath)] it yields, in order. *)
Fixpoint all_ts_files (listdir : list string) (suffix : string)
    : list (string * string) :=
  match listdir with
  | [] => []
  | filename :: rest =>
      if negb (Os.endswith filename (".ts" +:+ suffix))
         || bool_decide (filename = SOURCE_LANG +:+ suffix)
      then all_ts_files rest suffix
      else
        let filename :=
          if bool_decide (suffix ≠ EmptyString)
          then Os.drop_last (String.length suffix) filename
          else filename in
        (filename, Os.path_join LOCALE_DIR filename) :: all_ts_files rest suffix
  end.

#[global] Instance byte_eq_dec : EqDecision Byte.byte := Byte.byte_eq_dec.

(** The character class of [FIX_RE] over bytes:
    [[\x00-\x09\x0b\x0c\x0e-\x1f]]. *)
Definition FIX_RE (b : Byte.byte) : bool :=
  let n := Byte.to_nat b in
  (n <=? 9)%nat || (n =? 11)%nat || (n =? 12)%nat
  || ((14 <=? n)%nat && (n <=? 31)%nat).

(** Remove invalid characters from translation string *)
Definition remove_invalid_characters (s : list Byte.byte) : list Byte.byte :=
  filter (λ b, FIX_RE b = false) s.

(** [escape_cdata], over the function saved in [_orig_escape_cdata]. *)
Section escape.
Variable _orig_escape_cdata : string → string.

Definition escape_cdata (text : string) : string :=
  let text := _orig_escape_cdata text in
  let text := Py.replace text squote "&apos;" in
  Py.replace text dquote "&quot;".

End escape.

(** The ways in which [delete_files()] ends: it returns, [input] raises
    [EOFError], or a call exceeds the recursion limit. *)
Inductive deletion : Type :=
| Returned (listdir : list string) (out : list string)
| EOFError
| RecursionError.

(** [delete_files()], over the answers that [input] will return and the
    names in [LOCALE_DIR]: the names left and the lines printed.  After an
    answer that is not accepted the function calls itself; [depth] is the
    number of nested calls that the interpreter still allows, the call
    beyond it raising [RecursionError]. *)
Fixpoint delete_files (depth : nat) (answers : list string)
    (listdir : list string) (out : list string) : deletion :=
  match depth with
  | O => RecursionError
  | S depth' =>
      match answers with
      | [] => EOFError
      | delete_original_files :: answers' =>
          let out :=
            out ++ ["Would you like to delete original files (Y/N)?"] in
          if bool_decide (delete_original_files ∈ ["y"; "Y"; "yes"; "Yes"])
          then
            Returned
              (filter (λ item, Os.endswith item ".orig" = false) listdir)
              (out ++ ["Original files deleted."])
          else if bool_decide (delete_original_files ∈ ["n"; "N"]) then
            Returned listdir (out ++ ["Original files not deleted."])
          else
            delete_files depth' answers' listdir
              (out ++ ["No acceptable input given."])
      end
  end.

(** The extraction read as a scan of the string from the left. *)
Fixpoint scan_specifiers (s : string) : Exc (list ascii) :=
  match s with
  | EmptyString => Ok []
  | String c s' =>
      if decide (c = "%"%char) then
        match s' with
        | EmptyString => Raise IndexError
        | String d s'' =>
            match scan_specifiers s'' with
            | Ok l => Ok (d :: l)
            | Raise e => Raise e
            end
        end
      else scan_specifiers s'
  end.

(** The translations that the loop over a message examines. *)
Definition translations_of (message : Message) : list (option string) :=
  if bool_decide (numerus_attr message = Some "yes")
  then numerusform (translation_node message)
  else [text (translation_node message)].

(** Whether an examined translation is found valid; one that is [None]
    is passed over. *)
Definition is_valid (source : string) (numerus : bool)
    (translation : option string) : bool :=
  match translation with
  | None => true
  | Some translation =>
      match validate source translation numerus with
      | Ok (_, valid, _) => valid
      | Raise _ => false
      end
  end.

(** The run [r'] continues the run [r] inside a document: the same count
    of removed documents, no fix uncounted, the flag not reset and the
    output only extended. *)
Definition continues (r r' : Run) : Prop :=
  lr r' = lr r
  ∧ (tf r ≤ tf r')%nat
  ∧ (have_errors r = true → have_errors r' = true)
  ∧ stdout r `prefix_of` stdout r'.

(** * Properties *)

(** ** Strings *)

Section strings.
Implicit Types (s sub : string) (c : ascii) (n i : nat).

Lemma prefix_length sub s :
  String.prefix sub s = true → (String.length sub ≤ String.length s)%nat.
Proof.
  revert s. induction sub as [|a sub IH]; intros [|b s]; simpl; try lia.
  destruct (ascii_dec a b); [|discriminate]. intros H%IH. lia.
Qed.

Lemma prefix_nil s : String.prefix EmptyString s = true.
Proof. by destruct s. Qed.

Lemma prefix_char c d s :
  String.prefix (String c EmptyString) (String d s) = bool_decide (c = d).
Proof.
  simpl. destruct (ascii_dec c d) as [->|Hne].
  - rewrite bool_decide_eq_true_2 by done. by destruct s.
  - by rewrite bool_decide_eq_false_2.
Qed.

(** An occurrence found by [index] lies at or after the start position
    and inside the string. *)
Lemma index_bounds n sub s i :
  sub ≠ EmptyString → String.index n sub s = Some i →
  (n ≤ i ∧ i + String.length sub ≤ String.length s)%nat.
Proof.
  intros Hsub. revert n i.
  induction s as [|b s IH]; intros [|n] i; cbn [String.index].
  - destruct sub; [done | discriminate].
  - discriminate.
  - destruct (String.prefix sub (String b s)) eqn:Hp.
    + intros ?; simplify_eq. apply prefix_length in Hp. lia.
    + destruct (String.index 0 sub s) as [j|] eqn:Hj; [|discriminate].
      intros ?; simplify_eq. apply IH in Hj. simpl. lia.
  - destruct (String.index n sub s) as [j|] eqn:Hj; [|discriminate].
    intros ?; simplify_eq. apply IH in Hj. simpl. lia.
Qed.


Lemma get_Some_lt s i c :
  String.get i s = Some c → (i < String.length s)%nat.
Proof.
  revert i. induction s as [|b s IH]; intros [|i]; simpl; try done; try lia.
  intros H%IH. lia.
Qed.

Lemma index_char_None c s :
  c ∉ chars s → ∀ n, String.index n (String c EmptyString) s = None.
Proof.
  induction s as [|b s IH]; intros Hc [|n]; try done.
  - cbn [String.index]. rewrite prefix_char.
    rewrite bool_decide_eq_false_2.
    + rewrite IH; [done|]. intros ?. apply Hc. by right.
    + intros ->. apply Hc. by left.
  - cbn [String.index]. rewrite IH; [done|].
    intros ?. apply Hc. by right.
Qed.

Lemma find_char_absent c s n :
  c ∉ chars s → Py.find s (String c EmptyString) n = -1.
Proof. intros H. unfold Py.find. by rewrite index_char_None. Qed.

Lemma find_ge_m1 s sub n : -1 ≤ Py.find s sub n.
Proof. unfold Py.find. destruct (String.index n sub s); lia. Qed.

Lemma app_String c s t : String c s +:+ t = String c (s +:+ t).
Proof. done. Qed.

Lemma app_empty_l s : EmptyString +:+ s = s.
Proof. done. Qed.

Lemma prefix_app sub s :
  String.prefix sub s = true ↔ ∃ post, s = sub +:+ post.
Proof.
  revert s. induction sub as [|a sub IH]; intros s.
  - rewrite prefix_nil. split; [|done]. by exists s.
  - destruct s as [|b s]; simpl.
    + split; [done|]. by intros [post ?].
    + destruct (ascii_dec a b) as [->|Hne].
      * rewrite IH. split; intros [post Hpost]; exists post.
        -- by rewrite app_String, <- Hpost.
        -- rewrite app_String in Hpost. by simplify_eq.
      * split; [done|]. intros [post Hpost].
        rewrite app_String in Hpost. by simplify_eq.
Qed.

Lemma occurs_empty sub : sub ≠ EmptyString → ¬ occurs sub EmptyString.
Proof.
  intros Hsub (pre & post & H). destruct pre; [|done].
  rewrite app_empty_l in H. by destruct sub.
Qed.

Lemma occurs_cons sub c s :
  occurs sub (String c s)
  ↔ String.prefix sub (String c s) = true ∨ occurs sub s.
Proof.
  split.
  - intros ([|c' pre] & post & H).
    + left. apply prefix_app. by exists post.
    + right. rewrite app_String in H. simplify_eq. by exists pre, post.
  - intros [[post H]%prefix_app | (pre & post & ->)].
    + by exists EmptyString, post.
    + by exists (String c pre), post.
Qed.

Lemma index_Some_occurs sub s i :
  String.index 0 sub s = Some i → occurs sub s.
Proof.
  revert i. induction s as [|b s IH]; intros i; cbn [String.index].
  - destruct sub; [|done]. intros _. by exists EmptyString, EmptyString.
  - destruct (String.prefix sub (String b s)) eqn:Hp.
    + intros _. apply occurs_cons. by left.
    + destruct (String.index 0 sub s) as [j|]; [|done].
      intros _. apply occurs_cons. right. by apply (IH j).
Qed.

Lemma index_None_occurs sub s :
  sub ≠ EmptyString → String.index 0 sub s = None → ¬ occurs sub s.
Proof.
  intros Hsub. induction s as [|b s IH]; cbn [String.index].
  - intros _. by apply occurs_empty.
  - rewrite occurs_cons. destruct (String.prefix sub (String b s)); [done|].
    destruct (String.index 0 sub s); [done|].
    intros _ [|Ho]; [done|]. by apply IH.
Qed.

(** [s.find(sub) == -1] says that [sub] does not occur in [s], and
    [s.find(sub) >= 0] that it does. *)
Lemma find_absent sub s :
  sub ≠ EmptyString → Py.find s sub 0 = -1 ↔ ¬ occurs sub s.
Proof.
  intros Hsub. unfold Py.find.
  destruct (String.index 0 sub s) as [i|] eqn:Hi.
  - split; [lia|]. intros []. by apply index_Some_occurs in Hi.
  - split; [|done]. intros _. by apply index_None_occurs.
Qed.

Lemma find_present sub s :
  sub ≠ EmptyString → 0 ≤ Py.find s sub 0 ↔ occurs sub s.
Proof.
  intros Hsub. unfold Py.find.
  destruct (String.index 0 sub s) as [i|] eqn:Hi.
  - split; [|lia]. intros _. by apply index_Some_occurs in Hi.
  - split; [lia|]. intros Ho. by apply index_None_occurs in Hi.
Qed.

Lemma replace_nonempty s old new :
  new ≠ EmptyString → s ≠ EmptyString → Py.replace s old new ≠ EmptyString.
Proof.
  intros Hnew Hs. destruct s as [|c s]; [done|].
  unfold Py.replace. cbn [Py.replace_from].
  destruct (String.prefix old (String c s)); [|done].
  by destruct new.
Qed.

(** Replacing the marker by a space and the marker. *)
Lemma replace_percent_spaced s : Py.replace s "%" " %" = spaced s.
Proof.
  unfold Py.replace. induction s as [|c s IH]; [done|].
  cbn [Py.replace_from spaced]. rewrite prefix_char.
  destruct (decide (c = "%"%char)) as [->|Hne].
  - rewrite bool_decide_eq_true_2 by done. simpl. by rewrite IH.
  - rewrite bool_decide_eq_false_2 by done. by rewrite IH.
Qed.

End strings.

(** ** Specifier extraction *)

(** The loop ends within the fuel that [find_format_specifiers] gives it:
    each iteration advances [pos] by at least two characters. *)
Lemma find_format_specifiers_loop_fuel fuel s pos specifiers :
  (pos ≤ String.length s < fuel + pos)%nat →
  is_Some (find_format_specifiers_loop fuel s pos specifiers).
Proof.
  revert pos specifiers. induction fuel as [|fuel IH]; intros pos acc Hpos.
  - lia.
  - cbn [find_format_specifiers_loop]. unfold Py.find.
    destruct (String.index pos "%" s) as [i|] eqn:Hi; [|by eauto].
    apply index_bounds in Hi as [Hlo Hhi]; [|done]. simpl in Hhi.
    replace (Z.of_nat i <? 0) with false by lia.
    unfold Py.getitem.
    destruct (String.get (Z.to_nat (Z.of_nat i + 1)) s) as [c|] eqn:Hc;
      [|by eauto].
    apply get_Some_lt in Hc. apply IH. lia.
Qed.

Lemma find_format_specifiers_unfold s :
  find_format_specifiers_loop (S (String.length s)) s 0 []
  = Some (find_format_specifiers s).
Proof.
  unfold find_format_specifiers.
  destruct (find_format_specifiers_loop_fuel (S (String.length s)) s 0 [])
    as [r Hr]; [lia|]. by rewrite Hr.
Qed.

(** The only exception of the extraction is [IndexError]. *)
Lemma find_format_specifiers_loop_raise fuel s pos specifiers e :
  find_format_specifiers_loop fuel s pos specifiers = Some (Raise e) →
  e = IndexError.
Proof.
  revert pos specifiers. induction fuel as [|fuel IH]; intros pos acc; [done|].
  cbn [find_format_specifiers_loop].
  destruct (_ <? 0); [done|]. unfold Py.getitem.
  destruct (String.get _ s); [by apply IH | congruence].
Qed.

Lemma find_format_specifiers_raise s e :
  find_format_specifiers s = Raise e → e = IndexError.
Proof.
  intros H. apply (find_format_specifiers_loop_raise (S (String.length s)) s 0 []).
  by rewrite find_format_specifiers_unfold, H.
Qed.

Lemma profile_of_raise s e : profile_of s = Raise e → e = IndexError.
Proof.
  unfold profile_of. destruct (find_format_specifiers s) eqn:H; [done|].
  intros [= <-]. by apply find_format_specifiers_raise in H.
Qed.

(** A string without [%] has no specifier. *)
Lemma find_format_specifiers_no_percent s :
  "%"%char ∉ chars s → find_format_specifiers s = Ok [].
Proof.
  intros H. unfold find_format_specifiers. cbn [find_format_specifiers_loop].
  by rewrite find_char_absent.
Qed.

(** ** Profile classification *)

Lemma numeric_specifiers_digit c : c ∈ numeric_specifiers ↔ digit_1_9 c.
Proof.
  rewrite <- (bool_decide_spec (c ∈ numeric_specifiers)).
  rewrite <- (bool_decide_spec (digit_1_9 c)).
  destruct c as [[] [] [] [] [] [] [] []]; vm_compute; tauto.
Qed.

Lemma split_loop_filter specifiers numeric other :
  split_loop specifiers numeric other
  = (numeric ++ filter digit_1_9 specifiers,
     other ++ filter (λ c, ¬ digit_1_9 c) specifiers).
Proof.
  revert numeric other.
  induction specifiers as [|s rest IH]; intros numeric other; simpl.
  - by rewrite !app_nil_r.
  - rewrite !filter_cons. destruct (decide (s ∈ numeric_specifiers)) as [Hs|Hs];
      rewrite numeric_specifiers_digit in Hs; rewrite IH.
    + rewrite decide_True, decide_False by tauto. by rewrite <- !app_assoc.
    + rewrite decide_False, decide_True by tauto. by rewrite <- !app_assoc.
Qed.

Lemma split_format_specifiers_eq specifiers :
  split_format_specifiers specifiers
  = (list_to_set (filter digit_1_9 specifiers),
     if list_truthy (filter digit_1_9 specifiers) then []
     else filter (λ c, ¬ digit_1_9 c) specifiers).
Proof. unfold split_format_specifiers. by rewrite split_loop_filter. Qed.

Lemma list_to_set_empty_nil (l : list ascii) :
  list_to_set (C := gset ascii) l = ∅ ↔ l = [].
Proof.
  split; [|by intros ->]. destruct l as [|x l]; [done|].
  intros H. assert (x ∈ (∅ : gset ascii)) by (rewrite <- H; set_solver).
  set_solver.
Qed.

(** C1: classification puts exactly the tokens that are ASCII digits 1-9
    into the numeric set and the remaining tokens, in their order, into the
    other list; the other sequence of the returned pair is that list when
    the numeric set is empty and is empty whenever the numeric set is not. *)
Theorem split_format_specifiers_classifies (specifiers : list ascii) :
  split_loop specifiers [] []
  = (filter digit_1_9 specifiers, filter (λ c, ¬ digit_1_9 c) specifiers)
  ∧ (∀ c, c ∈ (split_format_specifiers specifiers).1
          ↔ c ∈ specifiers ∧ digit_1_9 c)
  ∧ ((split_format_specifiers specifiers).1 = ∅ →
     (split_format_specifiers specifiers).2
     = filter (λ c, ¬ digit_1_9 c) specifiers)
  ∧ ((split_format_specifiers specifiers).1 ≠ ∅ →
     (split_format_specifiers specifiers).2 = []).
Proof.
  rewrite split_loop_filter, split_format_specifiers_eq. simpl.
  split_and!; [done| | |].
  - intros c. rewrite elem_of_list_to_set, list_elem_of_filter. tauto.
  - intros ->%list_to_set_empty_nil. done.
  - rewrite list_to_set_empty_nil.
    by destruct (filter digit_1_9 specifiers).
Qed.

(** The pair returned by classification never has both components
    non-empty. *)
Lemma split_format_specifiers_exclusive specifiers :
  set_truthy (split_format_specifiers specifiers).1
  && list_truthy (split_format_specifiers specifiers).2 = false.
Proof.
  rewrite split_format_specifiers_eq. simpl.
  destruct (filter digit_1_9 specifiers) as [|x l]; simpl.
  - done.
  - by rewrite andb_false_r.
Qed.

Lemma profile_of_exclusive s source_f :
  profile_of s = Ok source_f →
  set_truthy source_f.1 && list_truthy source_f.2 = false.
Proof.
  unfold profile_of. destruct (find_format_specifiers s); [|done].
  intros [= <-]. apply split_format_specifiers_exclusive.
Qed.

(** ** Consistency check *)

(** C10: the pair returned by classification never has both a non-empty
    numeric set and a non-empty other sequence; hence the asserted
    condition holds for the profile of every source string and the check
    never ends in an assertion failure. *)
Theorem source_assertion_never_fails :
  (∀ specifiers,
     ¬ ((split_format_specifiers specifiers).1 ≠ ∅
        ∧ (split_format_specifiers specifiers).2 ≠ []))
  ∧ (∀ source source_f,
       profile_of source = Ok source_f →
       negb (set_truthy source_f.1 && list_truthy source_f.2) = true)
  ∧ (∀ source translation errors numerus,
       check_format_specifiers source translation errors numerus
       ≠ Raise AssertionError).
Proof.
  split_and!.
  - intros specifiers [H1 H2].
    pose proof (split_format_specifiers_exclusive specifiers) as H.
    unfold set_truthy in H. rewrite bool_decide_eq_true_2 in H by done.
    by destruct (split_format_specifiers specifiers).2.
  - intros source source_f H. by rewrite (profile_of_exclusive _ _ H).
  - intros source translation errors numerus.
    unfold check_format_specifiers.
    destruct (profile_of source) as [source_f|e] eqn:Hs; simpl.
    + rewrite (profile_of_exclusive _ _ Hs).
      destruct (profile_of translation) as [translation_f|e] eqn:Ht.
      * repeat case_match; done.
      * apply profile_of_raise in Ht as ->. done.
    + apply profile_of_raise in Hs as ->. done.
Qed.

Lemma check_format_specifiers_source source translation errors numerus source_f :
  profile_of source = Ok source_f →
  ∃ valid errors',
    check_format_specifiers source translation errors numerus
    = Ok (source_f, valid, errors').
Proof.
  intros Hs. unfold check_format_specifiers. rewrite Hs. simpl.
  rewrite (profile_of_exclusive _ _ Hs).
  destruct (profile_of translation) as [translation_f|e] eqn:Ht.
  - repeat case_match; eauto.
  - apply profile_of_raise in Ht as ->. eauto.
Qed.

(** C2 fails on the code: a source that mixes both conventions does not
    make the assertion fail. *)
Lemma mixed_source_assertion_counterexample :
  ¬ (∀ source translation errors numerus,
       mixes_conventions source →
       check_format_specifiers source translation errors numerus
       = Raise AssertionError).
Proof.
  intros H. specialize (H "%1 of %s" "%1 von %s" [] false).
  assert (mixes_conventions "%1 of %s") as Hmix by (apply (bool_decide_unpack _); vm_compute; exact I).
  apply H in Hmix. vm_compute in Hmix. discriminate.
Qed.

(** C2, amended: for a source that mixes both conventions the printf-style
    tokens are dropped from the source profile, whose numeric set is not
    empty and whose other sequence is empty; the assertion passes and the
    check returns its verdict on the translation. *)
Theorem mixed_source_passes_assertion source translation errors numerus :
  mixes_conventions source →
  ∃ numeric valid errors',
    numeric ≠ ∅
    ∧ profile_of source = Ok (numeric, [])
    ∧ check_format_specifiers source translation errors numerus
      = Ok ((numeric, []), valid, errors').
Proof.
  unfold mixes_conventions.
  destruct (find_format_specifiers source) as [specifiers|] eqn:Hf; [|done].
  intros [Hd _].
  assert (profile_of source
          = Ok (list_to_set (filter digit_1_9 specifiers), [])) as Hs.
  { unfold profile_of. rewrite Hf. simpl.
    rewrite split_format_specifiers_eq.
    apply Exists_exists in Hd as (c & Hc & Hdc).
    assert (c ∈ filter digit_1_9 specifiers) as Hin
      by (by apply list_elem_of_filter).
    by destruct (filter digit_1_9 specifiers); [inversion Hin|]. }
  destruct (check_format_specifiers_source source translation errors numerus
              _ Hs) as (valid & errors' & Hc).
  exists (list_to_set (filter digit_1_9 specifiers)), valid, errors'.
  split_and!; [|done..].
  rewrite list_to_set_empty_nil.
  apply Exists_exists in Hd as (c & Hc' & Hdc). intros Hnil.
  assert (c ∈ filter digit_1_9 specifiers) as Hin
    by (by apply list_elem_of_filter).
  rewrite Hnil in Hin. inversion Hin.
Qed.

Lemma mixed_source_passes_assertion_witness :
  ∃ numeric valid errors',
    numeric ≠ ∅
    ∧ profile_of "%1 of %s" = Ok (numeric, [])
    ∧ check_format_specifiers "%1 of %s" "%1 von %s" [] false
      = Ok ((numeric, []), valid, errors').
Proof.
  apply (mixed_source_passes_assertion "%1 of %s" "%1 von %s" [] false).
  compute_done.
Defined.

(** C6: for a numerus message whose source profile is exactly
    (empty set, [n]) and whose translation has no [%] character, the
    translation's profile is (empty set, []), the check returns [True] and
    records no finding. *)
Theorem numerus_without_count_accepted source translation errors :
  profile_of source = Ok (∅, ["n"%char]) →
  "%"%char ∉ chars translation →
  profile_of translation = Ok (∅, [])
  ∧ check_format_specifiers source translation errors true
    = Ok ((∅, ["n"%char]), true, errors).
Proof.
  intros Hs Ht.
  assert (profile_of translation = Ok (∅, [])) as Hp.
  { unfold profile_of. by rewrite find_format_specifiers_no_percent. }
  split; [done|].
  unfold check_format_specifiers. rewrite Hs, Hp. simpl.
  rewrite (find_char_absent _ _ _ Ht). done.
Qed.

Lemma numerus_without_count_accepted_witness :
  profile_of "un bloc" = Ok (∅, [])
  ∧ check_format_specifiers "%n block(s)" "un bloc" [] true
    = Ok ((∅, ["n"%char]), true, []).
Proof.
  apply (numerus_without_count_accepted "%n block(s)" "un bloc" []).
  - vm_compute. reflexivity.
  - compute_done.
Defined.

(** ** Repair table *)

(** C7: the repair table turns "% 1 and 2% and % s" into a string whose
    profile is that of a source using %1, %2 and %s, which the check then
    accepts; it turns "% 1" into "%1" and "2%" into "%2". *)
Theorem fix_string_example :
  fix_string "% 1 and 2% and % s" = "%1 and %2 and %s"
  ∧ profile_of (fix_string "% 1 and 2% and % s")
    = Ok ({[ "1"; "2" ]}%char, [])
  ∧ profile_of (fix_string "% 1 and 2% and % s") = profile_of "%1, %2, %s"
  ∧ check_format_specifiers "%1, %2, %s" (fix_string "% 1 and 2% and % s")
      [] false
    = Ok (({[ "1"; "2" ]}%char, []), true, [])
  ∧ fix_string "% 1" = "%1"
  ∧ fix_string "2%" = "%2".
Proof. vm_compute. done. Qed.

(** ** Address filter *)

Lemma alnum_run_app body post :
  Forall (λ c, alnum c = true) (chars body) →
  (String.length body ≤ alnum_run (body +:+ post))%nat.
Proof.
  induction body as [|c body IH]; simpl; [lia|].
  intros [Hc Hbody]%Forall_cons. rewrite Hc. apply IH in Hbody. lia.
Qed.

Lemma ADDRESS_REGEXP_match_complete v body post :
  v ∈ ["1"; "3"; "bc1"] →
  (30 ≤ String.length body)%nat →
  Forall (λ c, alnum c = true) (chars body) →
  ADDRESS_REGEXP_match (v +:+ body +:+ post) = true.
Proof.
  intros Hv Hlen Hbody.
  pose proof (alnum_run_app body post Hbody) as Hrun.
  assert ((30 <=? alnum_run (body +:+ post))%nat = true) as Hle
    by (apply Nat.leb_le; lia).
  unfold ADDRESS_REGEXP_match.
  repeat (apply elem_of_cons in Hv as [->|Hv]); [| | |by inversion Hv].
  - change ("1" +:+ ?x) with (String "1" x).
    cbn [String.prefix drop_string]. rewrite Hle, prefix_nil.
    by destruct (ascii_dec _ _).
  - change ("3" +:+ ?x) with (String "3" x).
    cbn [String.prefix drop_string]. rewrite Hle, prefix_nil.
    repeat (destruct (ascii_dec _ _); try done).
  - change ("bc1" +:+ ?x) with (String "b" (String "c" (String "1" x))).
    cbn [String.prefix drop_string]. rewrite Hle, prefix_nil.
    repeat (destruct (ascii_dec _ _); try done).
Qed.

Lemma ADDRESS_REGEXP_search_here text :
  ADDRESS_REGEXP_match text = true → ADDRESS_REGEXP_search text = true.
Proof. destruct text; cbn [ADDRESS_REGEXP_search]; by intros ->. Qed.

Lemma ADDRESS_REGEXP_search_complete text :
  address_like text → ADDRESS_REGEXP_search text = true.
Proof.
  intros (pre & v & body & post & -> & Hv & Hlen & Hbody).
  induction pre as [|c pre IH].
  - change (EmptyString +:+ ?x) with x.
    by apply ADDRESS_REGEXP_search_here, ADDRESS_REGEXP_match_complete.
  - change (String c pre +:+ ?x) with (String c (pre +:+ x)).
    cbn [ADDRESS_REGEXP_search]. rewrite IH. apply orb_true_r.
Qed.

(** The computation of [valid] for a translation with an address-like
    part: [valid] is false and a finding is recorded, which is the address
    finding when the profile equals the source profile; the translation
    is then handed to the repair. *)
Theorem address_translation_invalid filename source source_f translation
    numerus node r :
  profile_of source = Ok source_f →
  address_like translation →
  ∃ errors,
    validate source translation numerus = Ok (source_f, false, errors)
    ∧ errors ≠ []
    ∧ (profile_of translation = Ok source_f →
       errors = [address_finding translation])
    ∧ process_translation filename numerus (Some source) (Some translation)
        node r
      = repair source source_f node
          (foldl (λ r error, print (filename +:+ ": " +:+ error) r) r errors).
Proof.
  intros Hs Haddr. apply ADDRESS_REGEXP_search_complete in Haddr.
  assert (∃ errors,
    validate source translation numerus = Ok (source_f, false, errors)
    ∧ errors ≠ []
    ∧ (profile_of translation = Ok source_f →
       errors = [address_finding translation])) as (errors & Hv & Hne & He).
  { unfold validate, check_format_specifiers. rewrite Hs. simpl.
    rewrite (profile_of_exclusive _ _ Hs).
    destruct (profile_of translation) as [translation_f|e] eqn:Ht.
    - case_bool_decide as Hneq.
      + destruct (_ && _ && _ && _); simpl; rewrite ?Haddr; simpl;
          eexists; (split_and!; [done|done|]); by intros [= ->].
      + simpl. rewrite Haddr. simpl. eexists. by split_and!.
    - apply profile_of_raise in Ht as ->. simpl.
      eexists. by split_and!. }
  exists errors. split_and!; [done..|].
  unfold process_translation. rewrite Hv. done.
Qed.

Lemma address_translation_invalid_witness :
  ∃ errors,
    validate "Send now" "send to 1A1zP1eP5QGefi2DMPTfTL5SLmv7DivfNa now" false
    = Ok ((∅, []), false, errors)
    ∧ errors ≠ []
    ∧ (profile_of "send to 1A1zP1eP5QGefi2DMPTfTL5SLmv7DivfNa now"
       = Ok (∅, []) →
       errors
       = [address_finding "send to 1A1zP1eP5QGefi2DMPTfTL5SLmv7DivfNa now"])
    ∧ process_translation "bitcoin_de.ts" false (Some "Send now")
        (Some "send to 1A1zP1eP5QGefi2DMPTfTL5SLmv7DivfNa now")
        (mkElement ∅ None []) (mkRun 0 0 false [])
      = repair "Send now" (∅, []) (mkElement ∅ None [])
          (foldl (λ r error, print ("bitcoin_de.ts" +:+ ": " +:+ error) r)
             (mkRun 0 0 false []) errors).
Proof.
  apply (address_translation_invalid "bitcoin_de.ts" "Send now" (∅, [])
           "send to 1A1zP1eP5QGefi2DMPTfTL5SLmv7DivfNa now" false
           (mkElement ∅ None []) (mkRun 0 0 false [])).
  - vm_compute. reflexivity.
  - exists "send to ", "1", "A1zP1eP5QGefi2DMPTfTL5SLmv7DivfNa", " now".
    split_and!; [reflexivity | compute_done | simpl; lia | compute_done].
Defined.

(** ** Repair *)

Lemma clear_translation_unfinished node :
  text (clear_translation node) = None
  ∧ numerusform (clear_translation node) = []
  ∧ attrib (clear_translation node) = {[ "type" := "unfinished" ]}
  ∧ Element_get "type" (clear_translation node) = Some "unfinished".
Proof. unfold Element_get. simpl. by rewrite insert_empty, lookup_singleton_eq. Qed.

(** When the repair returns, it has either accepted a text, counting one
    more fix, or cleared the node and flagged the run. *)
Lemma repair_outcome source source_f node r node' r' :
  repair source source_f node r = Ok (node', r') →
  (∃ stored, node' = set_text stored node
     ∧ tf r' = S (tf r) ∧ have_errors r' = have_errors r)
  ∨ (node' = clear_translation node
     ∧ tf r' = tf r ∧ have_errors r' = true).
Proof.
  unfold repair. destruct (text node) as [t|]; [|intros [= <- <-]; by right].
  destruct (profile_of (fix_string t)) as [f1|]; simpl; [|done].
  case_bool_decide.
  - destruct (needs_spaces _) as [[]|]; simpl; [| |done];
      intros [= <- <-]; left; eauto.
  - destruct (_ && _).
    + destruct (profile_of _); simpl; [|done].
      case_bool_decide; intros [= <- <-]; [left|right]; eauto.
    + destruct (_ && _).
      * destruct (profile_of _); simpl; [|done].
        case_bool_decide; intros [= <- <-]; [left|right]; eauto.
      * intros [= <- <-]; by right.
Qed.

Lemma fix_string_nonempty t : t ≠ EmptyString → fix_string t ≠ EmptyString.
Proof.
  intros Ht. unfold fix_string. repeat (apply replace_nonempty; [done|]). done.
Qed.

Lemma needs_spaces_spec t :
  t ≠ EmptyString →
  ∃ b, needs_spaces t = Ok b ∧ (b = true ↔ ¬ marker_already_spaced t).
Proof.
  destruct t as [|c rest]; [done|]. intros _.
  unfold needs_spaces, Py.getitem. simpl String.get. cbv [mbind mret Exc_bind Exc_ret].
  eexists. split; [reflexivity|].
  rewrite !andb_true_iff, !Z.eqb_eq, !find_absent, bool_decide_eq_true by done.
  unfold marker_already_spaced. split.
  - intros ((((H1 & H2) & H3) & H4) & H5) [[rest' ?]|[?|[?|[?|?]]]];
      simplify_eq; tauto.
  - intros H. split_and!; intros ?; apply H; eauto 6.
    left. exists rest. congruence.
Qed.

(** C3: the code departs from the claim at a text one of whose specifiers
    is [%].  The first pass compares the profile of the substituted text
    with the source profile, accepts it, and only then puts a space
    before every [%] without computing the profile again: the text that
    is stored and counted as fixed has another profile than the source. *)
Theorem first_pass_alters_checked_text :
  let source := "%d%% done" in
  let node := translation_node (plain_message source "x% d%% ok") in
  let source_f : profile := (∅, ["d"; "%"]%char) in
  validate source "x% d%% ok" false
  = Ok (source_f, false, ["Mismatch between '%d%% done' and 'x% d%% ok'"])
  ∧ profile_of (fix_string "x% d%% ok") = Ok source_f
  ∧ repair source source_f node fresh_run
    = Ok (set_text "x %d % % ok" node,
          {| tf := 1; lr := 0; have_errors := false;
             stdout := ["Translation # 1 fixed: x %d % % ok"; ""] |})
  ∧ profile_of "x %d % % ok" = Ok (∅, ["d"; " "; " "]%char)
  ∧ profile_of "x %d % % ok" ≠ Ok source_f.
Proof. vm_compute. split_and!; done. Qed.

(** The first pass: when the profile recomputed after the substitution
    table equals the source profile, the fix is accepted: the node keeps a
    text,
    one more fix is counted and the run is not flagged.  If the text
    starts with [%] or has somewhere a [%] that follows a space, an opening
    parenthesis or a quote, it is stored as it is and its profile is the
    source profile; otherwise it is stored with a space put before every
    [%]. *)
Theorem first_pass_accepts source source_f node r t :
  text node = Some t → t ≠ EmptyString →
  profile_of (fix_string t) = Ok source_f →
  ∃ stored r',
    repair source source_f node r = Ok (set_text stored node, r')
    ∧ tf r' = S (tf r) ∧ have_errors r' = have_errors r
    ∧ (marker_already_spaced (fix_string t) →
       stored = fix_string t ∧ profile_of stored = Ok source_f)
    ∧ (¬ marker_already_spaced (fix_string t) →
       stored = spaced (fix_string t)).
Proof.
  intros Htext Ht Hp. unfold repair. rewrite Htext, Hp. simpl.
  rewrite bool_decide_eq_true_2 by done.
  destruct (needs_spaces_spec (fix_string t)) as (b & -> & Hb);
    [by apply fix_string_nonempty|]. simpl.
  destruct b.
  - exists (Py.replace (fix_string t) "%" " %"). eexists.
    split_and!; [reflexivity|done|done| |].
    + intros Hm. by apply Hb in Hm.
    + intros _. apply replace_percent_spaced.
  - exists (fix_string t). eexists.
    split_and!; [reflexivity|done|done|done|].
    intros Hm. apply Hb in Hm. done.
Qed.

Lemma first_pass_accepts_witness :
  let node := translation_node (plain_message "Sent %1" "Gesendet:$1") in
  ∃ stored r',
    repair "Sent %1" ({[ "1"%char ]}, []) node fresh_run
    = Ok (set_text stored node, r')
    ∧ tf r' = S (tf fresh_run) ∧ have_errors r' = have_errors fresh_run
    ∧ (marker_already_spaced (fix_string "Gesendet:$1") →
       stored = fix_string "Gesendet:$1"
       ∧ profile_of stored = Ok ({[ "1"%char ]}, []))
    ∧ (¬ marker_already_spaced (fix_string "Gesendet:$1") →
       stored = spaced (fix_string "Gesendet:$1")).
Proof.
  apply (first_pass_accepts "Sent %1" ({[ "1"%char ]}, [])
           (translation_node (plain_message "Sent %1" "Gesendet:$1"))
           fresh_run "Gesendet:$1").
  - reflexivity.
  - discriminate.
  - vm_compute. reflexivity.
Defined.

(** *** The swap of [%1] for [%n] *)

Section swap.
Implicit Types (s : string) (c : ascii).









End swap.









(** *** Irreparable translations *)

(** A repair that returns without counting a fix has cleared the node and
    flagged the run. *)
Lemma repair_unfixable_cleared source source_f node r node' r' :
  repair source source_f node r = Ok (node', r') →
  tf r' = tf r →
  node' = clear_translation node
  ∧ Element_get "type" node' = Some "unfinished"
  ∧ text node' = None
  ∧ have_errors r' = true.
Proof.
  intros [(stored & _ & Htf & _)|(-> & _ & Herr)]%repair_outcome Heq; [lia|].
  by destruct (clear_translation_unfinished node) as (? & _ & _ & ?).
Qed.

(** The profile recomputed by the first pass is not guarded: when the
    extraction fails on the substituted text, the repair raises. *)
Lemma repair_reparse_raises source source_f node r t e :
  text node = Some t →
  profile_of (fix_string t) = Raise e →
  repair source source_f node r = Raise e.
Proof. intros Ht Hp. unfold repair. by rewrite Ht, Hp. Qed.

(** A cleared node stays cleared through the remaining translations of
    its message. *)
Lemma process_translation_cleared filename numerus source translation
    node r node' r' :
  process_translation filename numerus source translation
    (clear_translation node) r = Ok (node', r') →
  node' = clear_translation node.
Proof.
  unfold process_translation.
  destruct translation as [translation|]; [|by intros [= <- _]].
  destruct source as [source|]; [|done].
  destruct (validate source translation numerus) as [[[source_f valid] errors]|];
    simpl; [|done].
  destruct valid; [by intros [= <- _]|].
  unfold repair. simpl. by intros [= <- _].
Qed.

Lemma process_translations_cleared filename numerus source translations
    node r node' r' :
  process_translations filename numerus source translations
    (clear_translation node) r = Ok (node', r') →
  node' = clear_translation node.
Proof.
  revert r. induction translations as [|translation rest IH]; intros r; simpl.
  - by intros [= <- _].
  - destruct (process_translation _ _ _ _ _ _) as [[node1 r1]|] eqn:H1;
      simpl; [|done].
    apply process_translation_cleared in H1 as ->. apply IH.
Qed.

(** C5: the code departs from the claim at a translation with an address
    whose profile is the source profile.  The filter makes it invalid and
    records the finding that it will be removed; the first repair pass
    then finds the profile of the unchanged text equal to the source
    profile and accepts it: a fix is counted, the text stays in the node,
    the message stays in the document, the run is not flagged and the
    document is written with the address in it.  When the profile of
    such a translation differs from the source profile, the filter is
    not consulted and the only finding is the mismatch. *)
Theorem address_translation_kept :
  let address := "send to 1A1zP1eP5QGefi2DMPTfTL5SLmv7DivfNa now" in
  let message := plain_message "Send now" address in
  let root := [replicate 9 (plain_message "Done" "Fertig") ++ [message]] in
  let out :=
    [ "bitcoin_de.ts: " +:+ address_finding address;
      "Translation # 1 fixed: send to 1A1zP1eP5QGefi2DMPTfTL5SLmv7DivfNa now";
      "" ] in
  address_like address
  ∧ validate "Send now" address false
    = Ok ((∅, []), false, [address_finding address])
  ∧ process_message "bitcoin_de.ts" message fresh_run
    = Ok (message, false,
          {| tf := 1; lr := 0; have_errors := false; stdout := out |})
  ∧ postprocess_translations [("bitcoin_de.ts", root)]
    = Ok ([("bitcoin_de.ts", root)],
          {| tf := 1; lr := 0; have_errors := false;
             stdout := "Checking and postprocessing..." :: out |})
  ∧ validate "Send now" "send %s to 1A1zP1eP5QGefi2DMPTfTL5SLmv7DivfNa" false
    = Ok ((∅, []), false,
          ["Mismatch between 'Send now' and 'send %s to 1A1zP1eP5QGefi2DMPTfTL5SLmv7DivfNa'"]).
Proof.
  split.
  - exists "send to ", "1", "A1zP1eP5QGefi2DMPTfTL5SLmv7DivfNa", " now".
    split_and!; [reflexivity | compute_done | simpl; lia | compute_done].
  - vm_compute. split_and!; reflexivity.
Qed.

(** C8 fails on the code at a translation that ends in [%]: the check
    records a parse error, the re-computation of the profile in the repair
    raises [IndexError] outside any handler, and the run ends there, the
    node neither cleared nor marked. *)
Theorem unparsable_translation_aborts :
  let message := plain_message "Done" "100%" in
  validate "Done" "100%" false
  = Ok ((∅, []), false, ["Parse error in translation for 'Done': '100%'"])
  ∧ profile_of (fix_string "100%") = Raise IndexError
  ∧ repair "Done" (∅, []) (translation_node message) fresh_run
    = Raise IndexError
  ∧ process_message "bitcoin_de.ts" message fresh_run = Raise IndexError
  ∧ postprocess_translations [("bitcoin_de.ts", [[message]])]
    = Raise IndexError.
Proof. vm_compute. done. Qed.

(** ** Pruning of a document *)

Lemma process_message_removed filename message r message' removed r' :
  process_message filename message r = Ok (message', removed, r') →
  removed = bool_decide (unfinished message').
Proof.
  unfold process_message.
  destruct (process_translations _ _ _ _ _ _) as [[node r1]|]; simpl; [|done].
  by intros [= <- <- <-].
Qed.

Lemma process_context_filter filename context r context' r' :
  process_context filename context r = Ok (context', r') →
  ∃ processed,
    Forall2 (processed_message filename) context processed
    ∧ context' = filter (λ m, ¬ unfinished m) processed.
Proof.
  revert r context' r'.
  induction context as [|message rest IH]; intros r context' r'; simpl.
  - intros [= <- <-]. exists []. by split.
  - destruct (process_message filename message r)
      as [[[message' removed] r1]|] eqn:Hm; simpl; [|done].
    destruct (process_context filename rest r1) as [[rest' r2]|] eqn:Hr;
      simpl; [|done].
    intros [= <- <-]. apply IH in Hr as (processed & Hall & ->).
    exists (message' :: processed). split.
    + constructor; [|done]. by exists r, r1, removed.
    + rewrite filter_cons.
      rewrite (process_message_removed _ _ _ _ _ _ Hm).
      case_bool_decide; [by rewrite decide_False by tauto|].
      by rewrite decide_True.
Qed.

Lemma process_contexts_filter filename root r root' r' :
  process_contexts filename root r = Ok (root', r') →
  ∃ processed,
    Forall2 (Forall2 (processed_message filename)) root processed
    ∧ root' = filter (λ m, ¬ unfinished m) <$> processed.
Proof.
  revert r root' r'.
  induction root as [|context rest IH]; intros r root' r'; simpl.
  - intros [= <- <-]. exists []. by split.
  - destruct (process_context filename context r) as [[context' r1]|] eqn:Hc;
      simpl; [|done].
    destruct (process_contexts filename rest r1) as [[rest' r2]|] eqn:Hr;
      simpl; [|done].
    intros [= <- <-].
    apply process_context_filter in Hc as (pc & Hpc & ->).
    apply IH in Hr as (processed & Hall & ->).
    exists (pc :: processed). split; [by constructor | done].
Qed.

Lemma num_messages_sum root : num_messages root = sum_list (length <$> root).
Proof.
  unfold num_messages.
  assert (∀ (context : Context) n,
            foldl (λ n _, S n) n context = (n + length context)%nat) as Hin.
  { induction context as [|m context IH]; intros n; simpl; [lia|].
    rewrite IH. lia. }
  assert (∀ n, foldl (λ n context, foldl (λ n _, S n) n context) n root
               = (n + sum_list (length <$> root))%nat) as Hout.
  { induction root as [|context rest IH]; intros n; [simpl; lia|].
    rewrite fmap_cons. cbn [foldl sum_list]. rewrite IH, Hin.
    unfold id. lia. }
  apply Hout.
Qed.

(** C9: when a document has been processed, the messages that remain are
    the processed messages whose translation node is not marked
    unfinished; with 9 of them or fewer the document is not written, with
    10 or more it is written with exactly those messages. *)
Theorem document_pruning filename root r out r' :
  process_document filename root r = Ok (out, r') →
  ∃ processed,
    Forall2 (Forall2 (processed_message filename)) root processed
    ∧ let kept := filter (λ m, ¬ unfinished m) <$> processed in
      (∀ context message,
         context ∈ kept → message ∈ context → ¬ unfinished message)
      ∧ ((sum_list (length <$> kept) ≤ 9)%nat → out = None)
      ∧ ((10 ≤ sum_list (length <$> kept))%nat → out = Some kept).
Proof.
  unfold process_document.
  destruct (process_contexts filename root r) as [[root' r1]|] eqn:Hp;
    simpl; [|done].
  apply process_contexts_filter in Hp as (processed & Hall & ->).
  rewrite num_messages_sum. unfold MIN_NUM_MESSAGES.
  intros Hout. exists processed. split; [done|]. simpl. split_and!.
  - intros context message (pc & -> & _)%list_elem_of_fmap Hm.
    by apply list_elem_of_filter in Hm as [? _].
  - intros Hle. destruct (_ <? _)%nat eqn:Hlt.
    + by injection Hout as <- <-.
    + apply Nat.ltb_ge in Hlt. lia.
  - intros Hle. destruct (_ <? _)%nat eqn:Hlt.
    + apply Nat.ltb_lt in Hlt. lia.
    + by injection Hout as <- <-.
Qed.

Lemma document_pruning_witness :
  let root :=
    [ replicate 6 (plain_message "Done" "Fertig")
      ++ [untranslated_message "Open"; plain_message "%1 of %2" "%1 von 2"];
      replicate 4 (plain_message "%n block(s)" "%n Blocks") ] in
  ∃ processed,
    Forall2 (Forall2 (processed_message "bitcoin_de.ts")) root processed
    ∧ let kept := filter (λ m, ¬ unfinished m) <$> processed in
      (∀ context message,
         context ∈ kept → message ∈ context → ¬ unfinished message)
      ∧ ((sum_list (length <$> kept) ≤ 9)%nat →
         Some [ replicate 6 (plain_message "Done" "Fertig");
                replicate 4 (plain_message "%n block(s)" "%n Blocks") ]
         = None)
      ∧ ((10 ≤ sum_list (length <$> kept))%nat →
         Some [ replicate 6 (plain_message "Done" "Fertig");
                replicate 4 (plain_message "%n block(s)" "%n Blocks") ]
         = Some kept).
Proof.
  apply (document_pruning "bitcoin_de.ts" _ fresh_run _
           {| tf := 0; lr := 0; have_errors := true;
              stdout := [ "bitcoin_de.ts: Mismatch between '%1 of %2' and '%1 von 2'";
                          "Translation could not be fixed"; "" ] |}).
  vm_compute. reflexivity.
Defined.

(** * Further properties *)

(** ** Strings, continued *)

Lemma chars_app a b : chars (a +:+ b) = chars a ++ chars b.
Proof. induction a as [|c a IH]; [done|]. rewrite app_String. simpl. by f_equal. Qed.

Lemma length_chars s : length (chars s) = String.length s.
Proof. induction s as [|c s IH]; simpl; [done|]. by f_equal. Qed.

Lemma chars_inj s t : chars s = chars t → s = t.
Proof.
  intros H. rewrite <- (string_of_list_ascii_of_string s).
  rewrite <- (string_of_list_ascii_of_string t). unfold chars in H. by rewrite H.
Qed.

Lemma string_app_assoc a b c : (a +:+ b) +:+ c = a +:+ (b +:+ c).
Proof. apply chars_inj. by rewrite !chars_app, app_assoc. Qed.

Lemma string_app_empty_r a : a +:+ EmptyString = a.
Proof. apply chars_inj. by rewrite chars_app, app_nil_r. Qed.

Lemma string_length_app a b :
  String.length (a +:+ b) = (String.length a + String.length b)%nat.
Proof. by rewrite <- !length_chars, chars_app, length_app. Qed.

Lemma get_app_skip pre t n :
  String.get (String.length pre + n) (pre +:+ t) = String.get n t.
Proof. induction pre as [|c pre IH]; [done|]. rewrite app_String. apply IH. Qed.

Lemma index_app_skip pre sub t :
  String.index (String.length pre) sub (pre +:+ t)
  = (λ i, String.length pre + i)%nat <$> String.index 0 sub t.
Proof.
  induction pre as [|c pre IH].
  - rewrite app_empty_l. simpl. by destruct (String.index 0 sub t).
  - rewrite app_String. cbn [String.length String.index]. rewrite IH.
    by destruct (String.index 0 sub t).
Qed.

(** The first marker of a string splits it into a part without marker and
    the rest. *)
Lemma index_percent_split t i :
  String.index 0 "%" t = Some i →
  ∃ u rest, t = u +:+ String "%" rest
            ∧ String.length u = i ∧ "%"%char ∉ chars u.
Proof.
  revert i. induction t as [|c t IH]; intros i; [done|].
  cbn [String.index]. rewrite prefix_char. case_bool_decide as Hc.
  - intros [= <-]. subst c. exists EmptyString, t. split_and!; [done..|].
    apply not_elem_of_nil.
  - destruct (String.index 0 "%" t) as [j|]; [|done]. intros [= <-].
    destruct (IH j eq_refl) as (u & rest & -> & <- & Hu).
    exists (String c u), rest. split_and!; [done..|].
    simpl. rewrite not_elem_of_cons. split; [congruence | done].
Qed.

(** ** Extraction as a scan *)

Lemma scan_specifiers_skip u v :
  "%"%char ∉ chars u → scan_specifiers (u +:+ v) = scan_specifiers v.
Proof.
  induction u as [|c u IH]; [done|]. simpl chars.
  intros [Hc Hu]%not_elem_of_cons. rewrite app_String.
  cbn [scan_specifiers]. rewrite decide_False by done. by apply IH.
Qed.

Lemma scan_specifiers_no_marker t :
  String.index 0 "%" t = None → scan_specifiers t = Ok [].
Proof.
  induction t as [|c t IH]; [done|].
  cbn [String.index scan_specifiers]. rewrite prefix_char.
  case_bool_decide as Hc; [done|]. rewrite decide_False by congruence.
  destruct (String.index 0 "%" t); [done|]. intros _. by apply IH.
Qed.

Lemma find_format_specifiers_loop_scan fuel pre t specifiers :
  (String.length t < fuel)%nat →
  find_format_specifiers_loop fuel (pre +:+ t) (String.length pre) specifiers
  = Some (match scan_specifiers t with
          | Ok l => Ok (specifiers ++ l)
          | Raise e => Raise e
          end).
Proof.
  revert pre t specifiers.
  induction fuel as [|fuel IH]; intros pre t acc Hlen; [lia|].
  cbn [find_format_specifiers_loop]. unfold Py.find.
  rewrite index_app_skip.
  destruct (String.index 0 "%" t) as [i|] eqn:Hi; simpl.
  - apply index_percent_split in Hi as (u & rest & -> & <- & Hu).
    rewrite scan_specifiers_skip by done.
    rewrite (proj2 (Z.ltb_ge _ 0)) by lia.
    unfold Py.getitem.
    replace (Z.to_nat (Z.of_nat (String.length pre + String.length u) + 1))
      with (String.length (pre +:+ u +:+ "%") + 0)%nat
      by (rewrite !string_length_app; simpl; lia).
    replace (pre +:+ u +:+ String "%" rest)
      with ((pre +:+ u +:+ "%") +:+ rest)
      by (by rewrite !string_app_assoc).
    rewrite get_app_skip.
    destruct rest as [|d rest]; cbn [String.get scan_specifiers];
      rewrite decide_True by done; [done|].
    replace ((pre +:+ u +:+ "%") +:+ String d rest)
      with ((pre +:+ u +:+ "%" +:+ String d EmptyString) +:+ rest)
      by (by rewrite !string_app_assoc).
    replace (Z.to_nat (Z.of_nat (String.length pre + String.length u) + 2))
      with (String.length (pre +:+ u +:+ "%" +:+ String d EmptyString))
      by (rewrite !string_length_app; simpl; lia).
    rewrite IH.
    + destruct (scan_specifiers rest); [|done]. by rewrite <- app_assoc.
    + rewrite string_length_app in Hlen. simpl in Hlen. lia.
  - rewrite scan_specifiers_no_marker by done. by rewrite app_nil_r.
Qed.

Lemma find_format_specifiers_scan s :
  find_format_specifiers s = scan_specifiers s.
Proof.
  pose proof (find_format_specifiers_loop_scan (S (String.length s))
                EmptyString s []) as H.
  rewrite app_empty_l in H. simpl String.length in H at 2.
  rewrite find_format_specifiers_unfold in H.
  specialize (H ltac:(lia)). injection H as ->.
  by destruct (scan_specifiers s).
Qed.

(** X1: the extraction scans the string from the left: a character other
    than [%] is passed over; a [%] takes the character after it as a
    specifier and the scan resumes after that character; a [%] that ends
    the string raises [IndexError]. *)
Theorem find_format_specifiers_equations :
  find_format_specifiers EmptyString = Ok []
  ∧ (∀ c s, c ≠ "%"%char →
       find_format_specifiers (String c s) = find_format_specifiers s)
  ∧ find_format_specifiers "%" = Raise IndexError
  ∧ (∀ d s,
       find_format_specifiers (String "%" (String d s))
       = match find_format_specifiers s with
         | Ok l => Ok (d :: l)
         | Raise e => Raise e
         end).
Proof.
  split_and!; [done| |done|].
  - intros c s Hc. rewrite !find_format_specifiers_scan.
    cbn [scan_specifiers]. by rewrite decide_False.
  - intros d s. by rewrite !find_format_specifiers_scan.
Qed.

Lemma scan_specifiers_raise_ends n s e :
  (String.length s ≤ n)%nat →
  scan_specifiers s = Raise e →
  e = IndexError ∧ ∃ pre, s = pre +:+ "%".
Proof.
  revert s. induction n as [|n IH]; intros [|c s] Hlen; try done.
  - simpl in Hlen. lia.
  - cbn [scan_specifiers]. simpl in Hlen.
    destruct (decide (c = "%"%char)) as [->|Hc].
    + destruct s as [|d s].
      * intros [= <-]. split; [done|]. by exists EmptyString.
      * destruct (scan_specifiers s) eqn:Hs; [done|]. intros [= <-].
        destruct n as [|n]; [simpl in Hlen; lia|].
        apply IH in Hs as [-> [pre ->]]; [|simpl in Hlen; lia].
        split; [done|]. by exists (String "%" (String d pre)).
    + intros Hs. apply IH in Hs as [-> [pre ->]]; [|lia].
      split; [done|]. by exists (String c pre).
Qed.

(** X2: the extraction fails only with [IndexError], and only on a string
    whose last character is [%]. *)
Theorem find_format_specifiers_error s e :
  find_format_specifiers s = Raise e →
  e = IndexError ∧ ∃ pre, s = pre +:+ "%".
Proof.
  rewrite find_format_specifiers_scan.
  by apply (scan_specifiers_raise_ends (String.length s)).
Qed.

Lemma find_format_specifiers_error_witness :
  IndexError = IndexError ∧ ∃ pre, "100%" = pre +:+ "%".
Proof.
  apply (find_format_specifiers_error "100%" IndexError).
  vm_compute. reflexivity.
Defined.

Lemma scan_specifiers_sound n s l d :
  (String.length s ≤ n)%nat →
  scan_specifiers s = Ok l → d ∈ l →
  occurs (String "%" (String d EmptyString)) s.
Proof.
  revert s l. induction n as [|n IH]; intros [|c s] l Hlen; simpl in Hlen;
    try lia.
  - intros [= <-] Hd. by apply not_elem_of_nil in Hd.
  - intros [= <-] Hd. by apply not_elem_of_nil in Hd.
  - cbn [scan_specifiers].
    destruct (decide (c = "%"%char)) as [->|Hc].
    + destruct s as [|d' s]; [done|].
      destruct (scan_specifiers s) as [l'|] eqn:Hs; [|done].
      intros [= <-] [->|Hd]%elem_of_cons.
      * by exists EmptyString, s.
      * destruct n as [|n]; [simpl in Hlen; lia|].
        destruct (IH s l' ltac:(simpl in Hlen; lia) Hs Hd) as (pre & post & ->).
        by exists (String "%" (String d' pre)), post.
    + intros Hs Hd.
      destruct (IH s l ltac:(lia) Hs Hd) as (pre & post & ->).
      by exists (String c pre), post.
Qed.

(** X3: every specifier that the extraction returns stands in the string
    directly after a [%]. *)
Theorem find_format_specifiers_sound s l d :
  find_format_specifiers s = Ok l → d ∈ l →
  occurs (String "%" (String d EmptyString)) s.
Proof.
  rewrite find_format_specifiers_scan.
  by apply (scan_specifiers_sound (String.length s)).
Qed.

Lemma find_format_specifiers_sound_witness :
  occurs (String "%" (String "1" EmptyString)) "(percentage: %1%)".
Proof.
  apply (find_format_specifiers_sound "(percentage: %1%)" ["1"; ")"]%char).
  - vm_compute. reflexivity.
  - compute_done.
Defined.

(** ** Profiles, continued *)

(** X4: when a positional digit is present, the profile is decided by the
    set of positional digits alone: the order of the tokens, their
    repetition and every other token are without effect. *)
Theorem split_format_specifiers_positional (l1 l2 : list ascii) :
  Exists digit_1_9 l1 →
  (∀ c, digit_1_9 c → c ∈ l1 ↔ c ∈ l2) →
  split_format_specifiers l1 = split_format_specifiers l2.
Proof.
  intros (c & Hc & Hd)%Exists_exists Hsame.
  rewrite !split_format_specifiers_eq.
  assert (c ∈ filter digit_1_9 l1) as H1 by (by apply list_elem_of_filter).
  assert (c ∈ filter digit_1_9 l2) as H2
    by (apply list_elem_of_filter; split; [done|]; by apply Hsame).
  f_equal.
  - apply set_eq. intros x. rewrite !elem_of_list_to_set, !list_elem_of_filter.
    split; intros [Hx ?]; (split; [done|]); by apply (Hsame x Hx).
  - destruct (filter digit_1_9 l1); [by apply not_elem_of_nil in H1|].
    destruct (filter digit_1_9 l2); [by apply not_elem_of_nil in H2|]. done.
Qed.

Lemma split_format_specifiers_positional_witness :
  split_format_specifiers ["1"; ")"; "2"]%char
  = split_format_specifiers ["2"; "2"; "s"; "1"]%char.
Proof.
  apply (split_format_specifiers_positional
           ["1"; ")"; "2"]%char ["2"; "2"; "s"; "1"]%char).
  - compute_done.
  - intros c. destruct c as [[] [] [] [] [] [] [] []]; compute_done.
Defined.

Lemma filter_all {A} (P : A → Prop) `{∀ x, Decision (P x)} (l : list A) :
  Forall P l → filter P l = l.
Proof.
  induction 1 as [|x l Hx Hl IH]; [done|].
  by rewrite filter_cons, decide_True, IH.
Qed.

Lemma filter_none {A} (P : A → Prop) `{∀ x, Decision (P x)} (l : list A) :
  Forall (λ x, ¬ P x) l → filter P l = [].
Proof.
  induction 1 as [|x l Hx Hl IH]; [done|].
  by rewrite filter_cons, decide_False, IH.
Qed.

Lemma split_format_specifiers_printf l :
  Forall (λ c, ¬ digit_1_9 c) l → split_format_specifiers l = (∅, l).
Proof.
  intros Hl. rewrite split_format_specifiers_eq.
  by rewrite (filter_none digit_1_9 l Hl), (filter_all _ l Hl).
Qed.

(** X5: without positional digits the profile keeps the tokens as they
    are, so that two such token lists that differ, be it only in order or
    in a repetition, have different profiles. *)
Theorem split_format_specifiers_ordered (l1 l2 : list ascii) :
  Forall (λ c, ¬ digit_1_9 c) l1 →
  Forall (λ c, ¬ digit_1_9 c) l2 →
  l1 ≠ l2 →
  split_format_specifiers l1 ≠ split_format_specifiers l2.
Proof.
  intros H1 H2 Hne. rewrite !split_format_specifiers_printf by done.
  by intros [= ->].
Qed.

Lemma split_format_specifiers_ordered_witness :
  split_format_specifiers ["s"; "d"]%char
  ≠ split_format_specifiers ["d"; "s"]%char.
Proof.
  apply (split_format_specifiers_ordered ["s"; "d"]%char ["d"; "s"]%char).
  - compute_done.
  - compute_done.
  - discriminate.
Defined.

(** ** Consistency check, continued *)

(** X6: the check raises only when the extraction fails on the source,
    with [IndexError]; when it returns, the profile it leaves in
    [source_f] is the source profile, a verdict of [True] leaves [errors]
    as it was and a verdict of [False] appends exactly one finding. *)
Theorem check_format_specifiers_findings source translation errors numerus :
  match check_format_specifiers source translation errors numerus with
  | Ok (source_f, valid, errors') =>
      profile_of source = Ok source_f
      ∧ if valid then errors' = errors
        else ∃ finding, errors' = errors ++ [finding]
  | Raise e => e = IndexError ∧ profile_of source = Raise IndexError
  end.
Proof.
  unfold check_format_specifiers.
  destruct (profile_of source) as [source_f|e] eqn:Hs; simpl.
  - rewrite (profile_of_exclusive _ _ Hs).
    destruct (profile_of translation) as [translation_f|e] eqn:Ht.
    + repeat case_match; simplify_eq; eauto.
    + apply profile_of_raise in Ht as ->. eauto.
  - by apply profile_of_raise in Hs as ->.
Qed.

Lemma elem_chars_occurs c s :
  c ∈ chars s → occurs (String c EmptyString) s.
Proof.
  induction s as [|d s IH]; simpl.
  - by intros ?%not_elem_of_nil.
  - intros [->|Hc]%elem_of_cons.
    + by exists EmptyString, s.
    + destruct (IH Hc) as (pre & post & ->). by exists (String d pre), post.
Qed.

Lemma find_char_absent_inv c s :
  Py.find s (String c EmptyString) 0 = -1 → c ∉ chars s.
Proof.
  intros H Hc. apply find_absent in H; [|done].
  by apply H, elem_chars_occurs.
Qed.

(** X7: for a source whose extraction succeeds, the check returns [True]
    exactly when the translation has the profile of the source, or the
    message is a numerus message with source profile (empty set, [n]) and
    the translation has no [%] at all. *)
Theorem check_format_specifiers_valid_iff source source_f translation errors
    numerus :
  profile_of source = Ok source_f →
  ∃ valid errors',
    check_format_specifiers source translation errors numerus
    = Ok (source_f, valid, errors')
    ∧ (valid = true
       ↔ profile_of translation = Ok source_f
         ∨ (numerus = true ∧ source_f = (∅, ["n"%char])
            ∧ "%"%char ∉ chars translation)).
Proof.
  intros Hs. unfold check_format_specifiers. rewrite Hs. simpl.
  rewrite (profile_of_exclusive _ _ Hs).
  destruct (profile_of translation) as [translation_f|e] eqn:Ht.
  - case_bool_decide as Hneq.
    + destruct (_ && _ && _ && _) eqn:Hex; eexists _, _;
        (split; [reflexivity|]).
      * apply andb_true_iff in Hex as [[[Hn Hsf]%andb_true_iff Htf]%andb_true_iff Hf].
        apply bool_decide_eq_true in Hsf. apply Z.eqb_eq in Hf.
        apply find_char_absent_inv in Hf. destruct numerus; [|done].
        split; [|done]. intros _. by right.
      * split; [done|]. intros [[= ->]|(-> & -> & Hpc)]; [done|].
        unfold profile_of in Ht.
        rewrite find_format_specifiers_no_percent in Ht by done.
        simpl in Ht. injection Ht as <-.
        rewrite (find_char_absent _ _ 0 Hpc) in Hex. done.
    + eexists _, _. split; [reflexivity|]. split; [|done]. intros _. left.
      f_equal. by destruct (decide (source_f = translation_f)).
  - apply profile_of_raise in Ht as Heq. subst e.
    eexists _, _. split; [reflexivity|]. split; [done|].
    intros [[=]|(_ & _ & Hpc)].
    unfold profile_of in Ht.
    rewrite find_format_specifiers_no_percent in Ht by done. done.
Qed.

Lemma check_format_specifiers_valid_iff_witness :
  let source_f : profile := ({[ "1"; "2" ]}%char, []) in
  ∃ valid errors',
    check_format_specifiers "%1 of %2" "%2 von %1" [] false
    = Ok (source_f, valid, errors')
    ∧ (valid = true
       ↔ profile_of "%2 von %1" = Ok source_f
         ∨ (false = true ∧ source_f = (∅, ["n"%char])
            ∧ "%"%char ∉ chars "%2 von %1")).
Proof.
  apply (check_format_specifiers_valid_iff "%1 of %2"
           ({[ "1"; "2" ]}%char, []) "%2 von %1" [] false).
  vm_compute. reflexivity.
Defined.

(** ** Replacement of a character *)

Lemma replace_char_chars c new s :
  chars (Py.replace s (String c EmptyString) new)
  = chars s ≫= (λ d, if decide (d = c) then chars new else [d]).
Proof.
  unfold Py.replace. induction s as [|d s IH]; [done|].
  cbn [Py.replace_from]. rewrite prefix_char. simpl chars. rewrite bind_cons.
  rewrite <- IH. destruct (decide (d = c)) as [->|Hne].
  - rewrite bool_decide_eq_true_2 by done. by rewrite chars_app.
  - by rewrite bool_decide_eq_false_2 by congruence.
Qed.

(** After the replacement of a character by a string without it, the
    character is gone; a character in neither is not brought in. *)
Lemma replace_char_absent c new s x :
  x ∉ chars new → (x = c ∨ x ∉ chars s) →
  x ∉ chars (Py.replace s (String c EmptyString) new).
Proof.
  intros Hnew Hx. rewrite replace_char_chars, list_elem_of_bind.
  intros (d & Hin & Hd). destruct (decide (d = c)) as [->|Hne]; [done|].
  apply list_elem_of_singleton in Hin as ->. by destruct Hx.
Qed.

(** ** Printing of findings *)

(** X8: a sanitized string has no line feed and the length of the
    original, each line feed being replaced by a space and nothing else
    changed. *)
Theorem sanitize_string_spec s :
  chars (sanitize_string s)
  = ((λ c, if decide (c = "010"%char) then " "%char else c) <$> chars s)
  ∧ ("010"%char ∉ chars (sanitize_string s))
  ∧ String.length (sanitize_string s) = String.length s.
Proof.
  assert (chars (sanitize_string s)
          = ((λ c, if decide (c = "010"%char) then " "%char else c)
               <$> chars s))
    as Heq.
  { unfold sanitize_string, newline. rewrite replace_char_chars.
    induction (chars s) as [|d l IH]; [done|].
    rewrite bind_cons, fmap_cons, IH. by destruct (decide (d = "010"%char)). }
  split_and!; [done| |].
  - unfold sanitize_string, newline. apply replace_char_absent; [|by left].
    compute_done.
  - by rewrite <- !length_chars, Heq, length_fmap.
Qed.

(** ** Repair table, continued *)

Lemma replace_from_length old new :
  old ≠ EmptyString →
  (String.length new ≤ String.length old)%nat →
  ∀ s k, (k ≤ String.length s)%nat →
    (String.length (Py.replace_from k old new s) + k ≤ String.length s)%nat.
Proof.
  intros Hold Hnew. induction s as [|c s IH]; intros k Hk.
  - simpl in *. lia.
  - cbn [Py.replace_from]. destruct k as [|k].
    + destruct (String.prefix old (String c s)) eqn:Hp.
      * apply prefix_length in Hp. simpl in Hp.
        assert (String.length old ≠ 0)%nat by (by destruct old).
        rewrite string_length_app.
        specialize (IH (String.length old - 1)%nat ltac:(lia)). simpl. lia.
      * specialize (IH 0%nat ltac:(lia)). simpl. lia.
    + simpl in Hk. specialize (IH k ltac:(lia)). simpl. lia.
Qed.

Lemma replace_length s old new :
  old ≠ EmptyString →
  (String.length new ≤ String.length old)%nat →
  (String.length (Py.replace s old new) ≤ String.length s)%nat.
Proof.
  intros Hold Hnew.
  pose proof (replace_from_length old new Hold Hnew s 0%nat ltac:(lia)).
  unfold Py.replace. lia.
Qed.

(** X9: the repair table never makes a string longer. *)
Theorem fix_string_length s :
  (String.length (fix_string s) ≤ String.length s)%nat.
Proof.
  unfold fix_string.
  repeat (etrans; [apply replace_length; [done | simpl; lia]|]).
  done.
Qed.

Lemma prefix_chars old s c :
  String.prefix old s = true → c ∈ chars old → c ∈ chars s.
Proof.
  intros [post ->]%prefix_app Hc. rewrite chars_app, elem_of_app. by left.
Qed.

(** A replacement leaves alone a string that lacks a character of the
    searched string. *)
Lemma replace_absent s old new c :
  c ∈ chars old → c ∉ chars s → Py.replace s old new = s.
Proof.
  intros Hold. unfold Py.replace. induction s as [|d s IH]; [done|].
  intros Hc. cbn [Py.replace_from].
  destruct (String.prefix old (String d s)) eqn:Hp.
  - by apply (prefix_chars _ _ c) in Hp.
  - rewrite IH; [done|]. intros ?. apply Hc. simpl. by right.
Qed.

(** X10: the repair table leaves unchanged every string that has neither
    [%] nor [$]. *)
Theorem fix_string_plain s :
  "%"%char ∉ chars s → "$"%char ∉ chars s → fix_string s = s.
Proof.
  intros Hp Hd. unfold fix_string.
  repeat first
    [ rewrite (replace_absent s _ _ "%"%char) by (done || compute_done)
    | rewrite (replace_absent s _ _ "$"%char) by (done || compute_done) ].
  done.
Qed.

Lemma fix_string_plain_witness : fix_string "Fertig" = "Fertig".
Proof. apply (fix_string_plain "Fertig"); compute_done. Defined.

(** ** Escaping of character data *)

(** X11: whatever the saved escape function returns, the text that
    [escape_cdata] returns has neither a single nor a double quote. *)
Theorem escape_cdata_no_quote (orig : string → string) text :
  ("'"%char ∉ chars (escape_cdata orig text))
  ∧ ("034"%char ∉ chars (escape_cdata orig text)).
Proof.
  unfold escape_cdata, squote, dquote. split.
  - apply replace_char_absent; [compute_done|]. right.
    apply replace_char_absent; [compute_done|]. by left.
  - apply replace_char_absent; [compute_done|]. by left.
Qed.

(** ** Invalid characters *)

Lemma FIX_RE_spec b :
  FIX_RE b = false
  ↔ (32 ≤ Byte.to_nat b)%nat ∨ b = Byte.x0a ∨ b = Byte.x0d.
Proof.
  rewrite <- (bool_decide_spec (FIX_RE b = false)).
  rewrite <- (bool_decide_spec (_ ∨ _)).
  destruct b; vm_compute; tauto.
Qed.

(** X12: the bytes that [remove_invalid_characters] keeps are, in their
    order, the line feeds, the carriage returns and the bytes from 0x20
    upwards; the tab and the other control bytes are removed, and a second
    application changes nothing. *)
Theorem remove_invalid_characters_spec (s : list Byte.byte) :
  remove_invalid_characters s
  = filter (λ b, (32 ≤ Byte.to_nat b)%nat ∨ b = Byte.x0a ∨ b = Byte.x0d) s
  ∧ (Byte.x09 ∉ remove_invalid_characters s)
  ∧ remove_invalid_characters (remove_invalid_characters s)
    = remove_invalid_characters s.
Proof.
  unfold remove_invalid_characters. split_and!.
  - apply list_filter_iff. intros b. apply FIX_RE_spec.
  - rewrite list_elem_of_filter. by intros [[=] _].
  - rewrite list_filter_filter. apply list_filter_iff. tauto.
Qed.

(** ** Address filter, continued *)

Lemma alnum_run_split s :
  ∃ body post,
    s = body +:+ post
    ∧ String.length body = alnum_run s
    ∧ Forall (λ c, alnum c = true) (chars body).
Proof.
  induction s as [|c s (body & post & Hs & Hlen & Hall)].
  - by exists EmptyString, EmptyString.
  - cbn [alnum_run]. destruct (alnum c) eqn:Hc.
    + exists (String c body), post. rewrite app_String, <- Hs. simpl.
      split_and!; [done|by f_equal|by constructor].
    + by exists EmptyString, (String c s).
Qed.

Lemma ADDRESS_REGEXP_match_sound s :
  ADDRESS_REGEXP_match s = true →
  ∃ v body post,
    s = v +:+ body +:+ post
    ∧ v ∈ ["1"; "3"; "bc1"]
    ∧ (30 ≤ String.length body)%nat
    ∧ Forall (λ c, alnum c = true) (chars body).
Proof.
  unfold ADDRESS_REGEXP_match.
  intros [[Hv Hrun]%andb_true_iff | [Hv Hrun]%andb_true_iff]%orb_true_iff;
    apply Nat.leb_le in Hrun.
  - assert (∃ v rest, v ∈ ["1"; "3"; "bc1"] ∧ s = v +:+ rest
                      ∧ drop_string 1 s = rest) as (v & rest & Hin & -> & Hd).
    { apply orb_true_iff in Hv as [[rest ->]%prefix_app | [rest ->]%prefix_app];
        eexists _, rest; (split_and!; [|reflexivity|done]); set_solver. }
    rewrite Hd in Hrun.
    destruct (alnum_run_split rest) as (body & post & -> & Hlen & Hall).
    exists v, body, post. split_and!; [done|done|lia|done].
  - apply prefix_app in Hv as [rest ->].
    change (drop_string 3 ("bc1" +:+ rest)) with rest in Hrun.
    destruct (alnum_run_split rest) as (body & post & -> & Hlen & Hall).
    exists "bc1", body, post. split_and!; [done|set_solver|lia|done].
Qed.

Lemma ADDRESS_REGEXP_search_sound text :
  ADDRESS_REGEXP_search text = true → address_like text.
Proof.
  induction text as [|c text IH]; cbn [ADDRESS_REGEXP_search].
  - rewrite orb_false_r.
    intros (v & body & post & ? & ?)%ADDRESS_REGEXP_match_sound.
    by exists EmptyString, v, body, post.
  - intros [(v & body & post & ? & ?)%ADDRESS_REGEXP_match_sound
           | (pre & v & body & post & -> & ?)%IH]%orb_true_iff.
    + by exists EmptyString, v, body, post.
    + by exists (String c pre), v, body, post.
Qed.

(** X13: the address filter returns [True], appending its one finding,
    exactly for a text in which [1], [3] or [bc1] is followed by at
    least 30 alphanumeric characters; for any other text, and for no
    text at all, it returns [False] and leaves [errors] as it was. *)
Theorem contains_bitcoin_addr_spec :
  (∀ errors, contains_bitcoin_addr None errors = (false, errors))
  ∧ (∀ text errors,
       address_like text →
       contains_bitcoin_addr (Some text) errors
       = (true, errors ++ [address_finding text]))
  ∧ (∀ text errors,
       ¬ address_like text →
       contains_bitcoin_addr (Some text) errors = (false, errors)).
Proof.
  split_and!; [done| |].
  - intros text errors H%ADDRESS_REGEXP_search_complete.
    unfold contains_bitcoin_addr. by rewrite H.
  - intros text errors H. unfold contains_bitcoin_addr.
    destruct (ADDRESS_REGEXP_search text) eqn:Hs; [|done].
    by apply ADDRESS_REGEXP_search_sound in Hs.
Qed.

(** X14: a text of 30 characters or fewer is never taken for an
    address. *)
Theorem contains_bitcoin_addr_short text errors :
  (String.length text ≤ 30)%nat →
  contains_bitcoin_addr (Some text) errors = (false, errors).
Proof.
  intros Hlen. unfold contains_bitcoin_addr.
  destruct (ADDRESS_REGEXP_search text) eqn:Hs; [|done].
  apply ADDRESS_REGEXP_search_sound in Hs
    as (pre & v & body & post & -> & Hv & Hb & _).
  rewrite !string_length_app in Hlen.
  assert (1 ≤ String.length v)%nat; [|lia].
  repeat (apply elem_of_cons in Hv as [->|Hv]); simpl; try lia.
  by apply elem_of_nil in Hv.
Qed.

Lemma contains_bitcoin_addr_short_witness :
  contains_bitcoin_addr (Some "1 BTC = 100000000 satoshi") []
  = (false, []).
Proof.
  apply (contains_bitcoin_addr_short "1 BTC = 100000000 satoshi" []).
  simpl. lia.
Defined.

(** ** Listing of the locale directory *)

Lemma chars_of_list l : chars (string_of_list_ascii l) = l.
Proof. apply list_ascii_of_string_of_list_ascii. Qed.

Lemma string_app_inj_r a b c : a +:+ c = b +:+ c → a = b.
Proof.
  intros H. apply chars_inj. apply (f_equal chars) in H.
  rewrite !chars_app in H. by apply app_inv_tail in H.
Qed.

Lemma endswith_spec s suffix :
  Os.endswith s suffix = true ↔ ∃ pre, s = pre +:+ suffix.
Proof.
  unfold Os.endswith. rewrite bool_decide_eq_true. split.
  - intros [k Hk]. exists (string_of_list_ascii k). apply chars_inj.
    by rewrite chars_app, chars_of_list.
  - intros [pre ->]. exists (chars pre). apply chars_app.
Qed.

Lemma endswith_app s t suffix :
  Os.endswith (s +:+ suffix) (t +:+ suffix) = Os.endswith s t.
Proof.
  unfold Os.endswith. apply bool_decide_ext. rewrite !chars_app. split.
  - apply suffix_app_inv.
  - apply suffix_app.
Qed.

Lemma drop_last_app s suffix :
  Os.drop_last (String.length suffix) (s +:+ suffix) = s.
Proof.
  unfold Os.drop_last. apply chars_inj.
  rewrite chars_of_list, string_length_app, chars_app.
  replace (String.length s + String.length suffix - String.length suffix)%nat
    with (length (chars s)) by (rewrite length_chars; lia).
  by rewrite take_app_length.
Qed.

(** X15: every pair that [all_ts_files] yields comes from a name of the
    directory that is the file name followed by the suffix; the file
    name ends in [.ts], is not the source language file, and the path is
    the file name joined to the locale directory. *)
Theorem all_ts_files_yields listdir suffix filename filepath :
  (filename, filepath) ∈ all_ts_files listdir suffix →
  filename +:+ suffix ∈ listdir
  ∧ Os.endswith filename ".ts" = true
  ∧ filename ≠ SOURCE_LANG
  ∧ filepath = Os.path_join LOCALE_DIR filename.
Proof.
  induction listdir as [|name rest IH]; cbn [all_ts_files].
  - by intros ?%elem_of_nil.
  - assert ((filename, filepath) ∈ all_ts_files rest suffix →
            filename +:+ suffix ∈ name :: rest
            ∧ Os.endswith filename ".ts" = true
            ∧ filename ≠ SOURCE_LANG
            ∧ filepath = Os.path_join LOCALE_DIR filename) as Hrest.
    { intros (? & ? & ? & ?)%IH. split_and!; [by right|done..]. }
    destruct (negb _ || _) eqn:Hskip; [done|].
    apply orb_false_iff in Hskip as [Hts%negb_false_iff Hsrc].
    apply bool_decide_eq_false in Hsrc.
    intros [[= -> ->]|Hin]%elem_of_cons; [|by apply Hrest].
    apply endswith_spec in Hts as [pre ->].
    rewrite <- string_app_assoc in *.
    case_bool_decide as Hsuffix.
    + rewrite drop_last_app. split_and!; [by left| | |done].
      * apply endswith_spec. by exists pre.
      * intros Heq. rewrite Heq in Hsrc. done.
    + subst suffix. rewrite !string_app_empty_r in *.
      split_and!; [by left| |done|done].
      apply endswith_spec. by exists pre.
Qed.

Lemma all_ts_files_yields_witness :
  "bitcoin_de.ts" +:+ ".orig"
  ∈ ["bitcoin_en.ts.orig"; "bitcoin_de.ts.orig"; "bitcoin_de.qm"]
  ∧ Os.endswith "bitcoin_de.ts" ".ts" = true
  ∧ "bitcoin_de.ts" ≠ SOURCE_LANG
  ∧ "src/qt/locale/bitcoin_de.ts" = Os.path_join LOCALE_DIR "bitcoin_de.ts".
Proof.
  apply (all_ts_files_yields
           ["bitcoin_en.ts.orig"; "bitcoin_de.ts.orig"; "bitcoin_de.qm"]
           ".orig" "bitcoin_de.ts" "src/qt/locale/bitcoin_de.ts").
  compute_done.
Defined.

Lemma all_ts_files_plain_elem listdir filename filepath :
  (filename, filepath) ∈ all_ts_files listdir EmptyString →
  Os.endswith filename ".ts" = true
  ∧ filename ≠ SOURCE_LANG
  ∧ filepath = Os.path_join LOCALE_DIR filename.
Proof.
  induction listdir as [|name rest IH]; cbn [all_ts_files].
  - by intros ?%elem_of_nil.
  - rewrite !string_app_empty_r.
    destruct (negb _ || _) eqn:Hskip; [done|].
    apply orb_false_iff in Hskip as [Hts%negb_false_iff Hsrc].
    apply bool_decide_eq_false in Hsrc.
    rewrite (bool_decide_eq_false_2 (EmptyString ≠ EmptyString))
      by (by intros []).
    by intros [[= -> ->]|Hin]%elem_of_cons; [|apply IH].
Qed.

Lemma all_ts_files_intro listdir suffix filename :
  suffix ≠ EmptyString →
  filename +:+ suffix ∈ listdir →
  Os.endswith filename ".ts" = true →
  filename ≠ SOURCE_LANG →
  (filename, Os.path_join LOCALE_DIR filename) ∈ all_ts_files listdir suffix.
Proof.
  intros Hsuffix Hin Hts Hsrc.
  induction listdir as [|name rest IH]; [by apply elem_of_nil in Hin|].
  cbn [all_ts_files].
  apply elem_of_cons in Hin as [<-|Hin].
  - rewrite endswith_app, Hts.
    rewrite (bool_decide_eq_false_2 (filename +:+ suffix = _)).
    2: { by intros ?%string_app_inj_r. }
    rewrite (bool_decide_eq_true_2 (suffix ≠ EmptyString)) by done.
    rewrite drop_last_app. by left.
  - destruct (negb _ || _); [by apply IH|]. right. by apply IH.
Qed.

(** X16: a file that [all_ts_files()] yields is yielded again, with the
    same name and path, by [all_ts_files(suffix)] over every listing that
    has its entry with the non-empty suffix appended, which is how the
    backup loop renames it. *)
Theorem all_ts_files_backup listdir listdir' suffix filename filepath :
  suffix ≠ EmptyString →
  (filename, filepath) ∈ all_ts_files listdir EmptyString →
  filename +:+ suffix ∈ listdir' →
  (filename, filepath) ∈ all_ts_files listdir' suffix.
Proof.
  intros Hsuffix (Hts & Hsrc & ->)%all_ts_files_plain_elem Hin.
  by apply all_ts_files_intro.
Qed.

Lemma all_ts_files_backup_witness :
  ("bitcoin_de.ts", "src/qt/locale/bitcoin_de.ts")
  ∈ all_ts_files
      ["x.qm"; "bitcoin_fr.ts.orig"; "bitcoin_de.ts.orig"; "bitcoin_en.ts"]
      ".orig".
Proof.
  apply (all_ts_files_backup ["bitcoin_en.ts"; "bitcoin_de.ts"; "x.qm"]
           ["x.qm"; "bitcoin_fr.ts.orig"; "bitcoin_de.ts.orig"; "bitcoin_en.ts"]
           ".orig" "bitcoin_de.ts" "src/qt/locale/bitcoin_de.ts").
  - discriminate.
  - compute_done.
  - compute_done.
Defined.

(** ** Deletion of the backup files *)

(** X17: answers other than y, Y, yes, Yes, n and N are each met with a
    new prompt, by a call of the function by itself.  While the nested
    calls stay within the depth allowed, the first answer among y, Y,
    yes, Yes removes exactly the names that end in [.orig], the first
    among n, N removes nothing, and answers that run out end the
    function with [EOFError]; as many unaccepted answers as calls are
    allowed end it with [RecursionError]. *)
Theorem delete_files_answers depth unrecognized answer rest listdir out :
  Forall (λ a, (a ∉ ["y"; "Y"; "yes"; "Yes"]) ∧ (a ∉ ["n"; "N"]))
    unrecognized →
  let prompt := "Would you like to delete original files (Y/N)?" in
  let out' :=
    out ++ (unrecognized ≫= λ _, [prompt; "No acceptable input given."])
        ++ [prompt] in
  ((length unrecognized < depth)%nat →
   (answer ∈ ["y"; "Y"; "yes"; "Yes"] →
    delete_files depth (unrecognized ++ answer :: rest) listdir out
    = Returned (filter (λ item, Os.endswith item ".orig" = false) listdir)
        (out' ++ ["Original files deleted."]))
   ∧ (answer ∈ ["n"; "N"] →
      delete_files depth (unrecognized ++ answer :: rest) listdir out
      = Returned listdir (out' ++ ["Original files not deleted."]))
   ∧ delete_files depth unrecognized listdir out = EOFError)
  ∧ ((depth ≤ length unrecognized)%nat →
     delete_files depth (unrecognized ++ rest) listdir out = RecursionError).
Proof.
  intros Hbad. revert depth out.
  induction Hbad as [|a bad [Hy Hn] Hbad IH]; intros depth out; cbn zeta.
  - rewrite !app_nil_l. cbn [mbind list_bind app length]. split.
    + intros Hdepth. destruct depth as [|depth]; [lia|].
      split_and!; [| |done].
      * intros Hans. cbn [delete_files].
        rewrite (bool_decide_eq_true_2 _ Hans). by rewrite <- !app_assoc.
      * intros Hans. cbn [delete_files].
        rewrite bool_decide_eq_false_2, (bool_decide_eq_true_2 _ Hans).
        -- by rewrite <- !app_assoc.
        -- intros Hyes. revert Hans Hyes. rewrite !elem_of_cons, !elem_of_nil.
           intros [->|[->|[]]] [|[|[|[|[]]]]]; done.
    + intros Hdepth. by replace depth with 0%nat by lia.
  - rewrite <- !app_comm_cons. cbn [length]. rewrite bind_cons.
    destruct depth as [|depth]; (split; [intros Hdepth|intros Hdepth]);
      try lia; try done.
    + cbn [delete_files]. rewrite !bool_decide_eq_false_2 by done.
      destruct (IH depth
                  ((out ++ ["Would you like to delete original files (Y/N)?"])
                     ++ ["No acceptable input given."]))
        as [IHin _].
      destruct (IHin ltac:(lia)) as (IHy & IHn & IHe).
      split_and!; [| |done].
      * intros Hans. rewrite (IHy Hans). by rewrite <- !app_assoc.
      * intros Hans. rewrite (IHn Hans). by rewrite <- !app_assoc.
    + cbn [delete_files]. rewrite !bool_decide_eq_false_2 by done.
      apply IH. lia.
Qed.

Lemma delete_files_answers_witness :
  let prompt := "Would you like to delete original files (Y/N)?" in
  let listdir := ["bitcoin_de.ts"; "bitcoin_de.ts.orig"; "bitcoin_fr.ts.orig"] in
  let out' :=
    [] ++ (["no"; ""] ≫= λ _, [prompt; "No acceptable input given."])
       ++ [prompt] in
  ((length ["no"; ""] < 3)%nat →
   ("Y" ∈ ["y"; "Y"; "yes"; "Yes"] →
    delete_files 3 (["no"; ""] ++ "Y" :: []) listdir []
    = Returned (filter (λ item, Os.endswith item ".orig" = false) listdir)
        (out' ++ ["Original files deleted."]))
   ∧ ("Y" ∈ ["n"; "N"] →
      delete_files 3 (["no"; ""] ++ "Y" :: []) listdir []
      = Returned listdir (out' ++ ["Original files not deleted."]))
   ∧ delete_files 3 ["no"; ""] listdir [] = EOFError)
  ∧ ((3 ≤ length ["no"; ""])%nat →
     delete_files 3 (["no"; ""] ++ []) listdir [] = RecursionError).
Proof.
  apply (delete_files_answers 3 ["no"; ""] "Y" []
           ["bitcoin_de.ts"; "bitcoin_de.ts.orig"; "bitcoin_fr.ts.orig"] []).
  compute_done.
Defined.

(** ** Messages whose translations are valid *)

Lemma check_format_specifiers_true source translation errors numerus
    source_f errors' :
  check_format_specifiers source translation errors numerus
  = Ok (source_f, true, errors') →
  errors' = errors.
Proof.
  unfold check_format_specifiers.
  destruct (profile_of source) as [sf|]; simpl; [|done].
  destruct (_ && _); [done|].
  destruct (profile_of translation) as [translation_f|[]]; try done.
  repeat case_match; by intros [= _ <-].
Qed.

Lemma validate_true source translation numerus source_f errors :
  validate source translation numerus = Ok (source_f, true, errors) →
  errors = [].
Proof.
  unfold validate.
  destruct (check_format_specifiers source translation [] numerus)
    as [[[sf ok] errs]|] eqn:Hc; simpl; [|done].
  destruct ok; [|done].
  apply check_format_specifiers_true in Hc as ->.
  unfold contains_bitcoin_addr.
  destruct (ADDRESS_REGEXP_search translation); [done|]. by intros [= _ <-].
Qed.

Lemma process_translations_valid filename numerus source translations node r :
  Forall (λ t, is_valid source numerus t = true) translations →
  process_translations filename numerus (Some source) translations node r
  = Ok (node, r).
Proof.
  induction 1 as [|t translations Ht _ IH]; [done|].
  cbn [process_translations]. unfold process_translation.
  destruct t as [translation|]; [|by simpl].
  unfold is_valid in Ht.
  destruct (validate source translation numerus)
    as [[[source_f valid] errors]|] eqn:Hv; [|done].
  subst valid. apply validate_true in Hv as Herr. subst errors. by simpl.
Qed.

(** X18: a message whose examined translations are all valid keeps its
    translation node as it is; nothing is printed, counted or flagged;
    its location tags are removed, and it is removed from the document
    exactly when its node was already marked unfinished. *)
Theorem process_message_valid filename message r source :
  source_text message = Some source →
  Forall (λ t, is_valid source
                 (bool_decide (numerus_attr message = Some "yes")) t = true)
    (translations_of message) →
  process_message filename message r
  = Ok ({| numerus_attr := numerus_attr message;
           source_text := source_text message;
           translation_node := translation_node message;
           location := [] |},
        bool_decide (unfinished message), r).
Proof.
  intros Hs Hall. unfold process_message, translations_of in *. rewrite Hs.
  by rewrite (process_translations_valid _ _ _ _ _ _ Hall).
Qed.

Lemma process_message_valid_witness :
  process_message "bitcoin_de.ts" (plain_message "%1 of %2" "%2 von %1")
    fresh_run
  = Ok (plain_message "%1 of %2" "%2 von %1", false, fresh_run).
Proof.
  apply (process_message_valid "bitcoin_de.ts"
           (plain_message "%1 of %2" "%2 von %1") fresh_run "%1 of %2").
  - reflexivity.
  - compute_done.
Defined.

(** ** Messages whose translation node has no text *)

Lemma validate_total source source_f translation numerus :
  profile_of source = Ok source_f →
  ∃ valid errors,
    validate source translation numerus = Ok (source_f, valid, errors).
Proof.
  intros Hs. unfold validate.
  destruct (check_format_specifiers_source source translation [] numerus
              _ Hs) as (ok & errors & ->). simpl.
  destruct ok; [|by eauto].
  unfold contains_bitcoin_addr.
  destruct (ADDRESS_REGEXP_search translation); simpl; eauto.
Qed.

Lemma have_errors_foldl_print (lines : list string) r :
  have_errors (foldl (λ r line, print line r) r lines) = have_errors r
  ∧ tf (foldl (λ r line, print line r) r lines) = tf r.
Proof.
  revert r. induction lines as [|l lines IH]; intros r; [done|].
  apply (IH (print l r)).
Qed.

Lemma process_translations_no_text filename numerus source source_f
    translations node r :
  text node = None →
  profile_of source = Ok source_f →
  ∃ r',
    process_translations filename numerus (Some source) translations node r
    = Ok (if forallb (is_valid source numerus) translations
          then node else clear_translation node, r')
    ∧ tf r' = tf r
    ∧ have_errors r'
      = have_errors r || negb (forallb (is_valid source numerus) translations).
Proof.
  intros Htext Hs. revert node r Htext.
  induction translations as [|t translations IH]; intros node r Htext.
  - exists r. by rewrite orb_false_r.
  - cbn [process_translations forallb]. unfold process_translation.
    destruct t as [translation|]; simpl.
    + destruct (validate_total source source_f translation numerus Hs)
        as (valid & errors & Hv). rewrite Hv. simpl.
      pose proof (have_errors_foldl_print
                    ((λ error, filename +:+ ": " +:+ error) <$> errors) r)
        as [Hhe Htf].
      rewrite foldl_fmap in Hhe, Htf.
      set (r1 := foldl _ r errors) in *.
      destruct valid; simpl.
      * destruct (IH node r1 Htext) as (r' & -> & Htf' & Hhe').
        exists r'. by rewrite Htf', Hhe', Htf, Hhe.
      * unfold repair. rewrite Htext. simpl.
        set (r2 := set_have_errors _).
        destruct (IH (clear_translation node) r2 eq_refl)
          as (r' & -> & Htf' & Hhe').
        exists r'. split_and!.
        -- by destruct (forallb _ _).
        -- by rewrite Htf'.
        -- rewrite Hhe'. simpl. by rewrite orb_true_r.
    + apply (IH node r Htext).
Qed.

(** X19: in a numerus message the repair works on the text of the
    translation node itself; when that node has no text and one of its
    forms is invalid, the node is cleared, the message is removed and the
    run is flagged, no fix being counted. *)
Theorem numerus_invalid_form_cleared filename message r source source_f :
  numerus_attr message = Some "yes" →
  text (translation_node message) = None →
  source_text message = Some source →
  profile_of source = Ok source_f →
  Exists (λ t, is_valid source true t = false)
    (numerusform (translation_node message)) →
  ∃ r',
    process_message filename message r
    = Ok ({| numerus_attr := numerus_attr message;
             source_text := source_text message;
             translation_node := clear_translation (translation_node message);
             location := [] |}, true, r')
    ∧ tf r' = tf r
    ∧ have_errors r' = true.
Proof.
  intros Hnum Htext Hsrc Hs Hex. unfold process_message.
  rewrite Hnum, Hsrc, (bool_decide_eq_true_2 _ eq_refl).
  destruct (process_translations_no_text filename true source source_f
              (numerusform (translation_node message))
              (translation_node message) r Htext Hs)
    as (r' & -> & Htf & Hhe).
  assert (forallb (is_valid source true)
            (numerusform (translation_node message)) = false) as Hall.
  { apply not_true_iff_false. intros Hall.
    apply Exists_exists in Hex as (t & Hin & Ht).
    rewrite forallb_forall in Hall.
    rewrite (Hall t) in Ht; [done|]. by apply list_elem_of_In. }
  rewrite Hall in *. exists r'. simpl. split_and!; [done|done|].
  by rewrite Hhe, orb_true_r.
Qed.

Lemma numerus_invalid_form_cleared_witness :
  let message :=
    {| numerus_attr := Some "yes"; source_text := Some "%n block(s)";
       translation_node :=
         {| attrib := ∅; text := None;
            numerusform := [Some "%n Block"; Some "%d Blocks"] |};
       location := ["bitcoingui.cpp"] |} in
  ∃ r',
    process_message "bitcoin_de.ts" message fresh_run
    = Ok ({| numerus_attr := numerus_attr message;
             source_text := source_text message;
             translation_node := clear_translation (translation_node message);
             location := [] |}, true, r')
    ∧ tf r' = tf fresh_run
    ∧ have_errors r' = true.
Proof.
  apply (numerus_invalid_form_cleared "bitcoin_de.ts"
           {| numerus_attr := Some "yes"; source_text := Some "%n block(s)";
              translation_node :=
                {| attrib := ∅; text := None;
                   numerusform := [Some "%n Block"; Some "%d Blocks"] |};
              location := ["bitcoingui.cpp"] |}
           fresh_run "%n block(s)" (∅, ["n"%char])).
  - reflexivity.
  - reflexivity.
  - reflexivity.
  - vm_compute. reflexivity.
  - apply Exists_cons_tl, Exists_cons_hd. vm_compute. reflexivity.
Defined.

(** ** Counters, flag and output of a run *)

Lemma continues_refl r : continues r r.
Proof. unfold continues. split_and!; [done|lia|done|done]. Qed.

Lemma continues_trans r1 r2 r3 :
  continues r1 r2 → continues r2 r3 → continues r1 r3.
Proof.
  intros (Hl1 & Ht1 & He1 & Hs1) (Hl2 & Ht2 & He2 & Hs2). unfold continues.
  split_and!; [congruence|lia|auto|by etrans].
Qed.

Lemma continues_print line r : continues r (print line r).
Proof.
  unfold continues. simpl. split_and!; [done|lia|done|by apply prefix_app_r].
Qed.

Lemma continues_foldl_print (f : string → string) errors r :
  continues r (foldl (λ r error, print (f error) r) r errors).
Proof.
  revert r. induction errors as [|error errors IH]; intros r.
  - apply continues_refl.
  - simpl. eapply continues_trans; [apply continues_print | apply IH].
Qed.

Lemma continues_report_fixed node r : continues r (report_fixed node r).
Proof.
  unfold report_fixed, continues. simpl.
  split_and!; [done|lia|done|]. rewrite <- app_assoc. by apply prefix_app_r.
Qed.

Lemma continues_report_unfixable line r :
  continues r (set_have_errors (print "" (print line r))).
Proof.
  unfold continues. simpl.
  split_and!; [done|lia|done|]. rewrite <- app_assoc. by apply prefix_app_r.
Qed.

Lemma repair_continues source source_f node r node' r' :
  repair source source_f node r = Ok (node', r') → continues r r'.
Proof.
  unfold repair. destruct (text node) as [t|].
  2: { intros [= _ <-]. apply continues_report_unfixable. }
  destruct (profile_of (fix_string t)) as [f1|]; simpl; [|done].
  case_bool_decide.
  - destruct (needs_spaces _) as [b|]; simpl; [|done].
    intros [= _ <-]. apply continues_report_fixed.
  - destruct (_ && _).
    + destruct (profile_of (Py.replace _ "%" "&")); simpl; [|done].
      case_bool_decide; intros [= _ <-];
        [apply continues_report_fixed | apply continues_report_unfixable].
    + destruct (_ && _).
      * destruct (profile_of (Py.replace _ "%1" "%n")); simpl; [|done].
        case_bool_decide; intros [= _ <-];
          [apply continues_report_fixed | apply continues_report_unfixable].
      * intros [= _ <-]. apply continues_report_unfixable.
Qed.

Lemma process_translation_continues filename numerus source translation
    node r node' r' :
  process_translation filename numerus source translation node r
  = Ok (node', r') →
  continues r r'.
Proof.
  unfold process_translation.
  destruct translation as [translation|];
    [|intros [= _ <-]; apply continues_refl].
  destruct source as [source|]; [|done].
  destruct (validate source translation numerus)
    as [[[source_f valid] errors]|]; simpl; [|done].
  pose proof (continues_foldl_print (λ error, filename +:+ ": " +:+ error)
                errors r) as Hp.
  destruct valid; [by intros [= _ <-]|].
  intros Hr%repair_continues. by eapply continues_trans.
Qed.

Lemma process_translations_continues filename numerus source translations
    node r node' r' :
  process_translations filename numerus source translations node r
  = Ok (node', r') →
  continues r r'.
Proof.
  revert node r. induction translations as [|t rest IH]; intros node r.
  - intros [= _ <-]. apply continues_refl.
  - cbn [process_translations].
    destruct (process_translation _ _ _ _ _ _) as [[node1 r1]|] eqn:H1;
      simpl; [|done].
    intros H2%IH. apply process_translation_continues in H1.
    by eapply continues_trans.
Qed.

Lemma process_message_continues filename message r message' removed r' :
  process_message filename message r = Ok (message', removed, r') →
  continues r r'.
Proof.
  unfold process_message.
  destruct (process_translations _ _ _ _ _ _) as [[node1 r1]|] eqn:H1;
    simpl; [|done].
  intros [= _ _ <-]. by apply process_translations_continues in H1.
Qed.

Lemma process_context_continues filename context r context' r' :
  process_context filename context r = Ok (context', r') → continues r r'.
Proof.
  revert r context' r'.
  induction context as [|message rest IH]; intros r context' r'.
  - intros [= _ <-]. apply continues_refl.
  - cbn [process_context].
    destruct (process_message filename message r)
      as [[[message' removed] r1]|] eqn:Hm; simpl; [|done].
    destruct (process_context filename rest r1) as [[rest' r2]|] eqn:Hr;
      simpl; [|done].
    intros [= _ <-]. apply process_message_continues in Hm. apply IH in Hr.
    by eapply continues_trans.
Qed.

Lemma process_contexts_continues filename root r root' r' :
  process_contexts filename root r = Ok (root', r') → continues r r'.
Proof.
  revert r root' r'.
  induction root as [|context rest IH]; intros r root' r'.
  - intros [= _ <-]. apply continues_refl.
  - cbn [process_contexts].
    destruct (process_context filename context r) as [[context' r1]|] eqn:Hc;
      simpl; [|done].
    destruct (process_contexts filename rest r1) as [[rest' r2]|] eqn:Hr;
      simpl; [|done].
    intros [= _ <-]. apply process_context_continues in Hc. apply IH in Hr.
    by eapply continues_trans.
Qed.

(** X21: over the documents of a run the counter [lr] grows by one for
    each document that is not written, so that the written and the
    removed documents are together the documents given; the written ones
    are among those given, in their order; the counter [tf] never
    decreases, the flag [have_errors] is never reset and the output is
    only extended. *)
Theorem process_documents_run files r written r' :
  process_documents files r = Ok (written, r') →
  (length written + lr r' = length files + lr r)%nat
  ∧ written.*1 `sublist_of` files.*1
  ∧ (tf r ≤ tf r')%nat
  ∧ (have_errors r = true → have_errors r' = true)
  ∧ stdout r `prefix_of` stdout r'.
Proof.
  revert r written r'.
  induction files as [|[filename root] rest IH]; intros r written r'.
  - intros [= <- <-]. split_and!; [done|done|lia|done|done].
  - cbn [process_documents]. unfold process_document.
    destruct (process_contexts filename root r) as [[root' r1]|] eqn:Hc;
      simpl; [|done].
    apply process_contexts_continues in Hc as (Hl1 & Ht1 & He1 & Hs1).
    destruct (_ <? _)%nat; simpl.
    + destruct (process_documents rest _) as [[written' r2]|] eqn:Hr;
        simpl; [|done].
      intros [= <- <-]. apply IH in Hr as (Hl2 & Hsub & Ht2 & He2 & Hs2).
      simpl in *. split_and!.
      * lia.
      * by apply sublist_cons.
      * lia.
      * auto.
      * etrans; [exact Hs1|]. etrans; [|exact Hs2]. by apply prefix_app_r.
    + destruct (process_documents rest r1) as [[written' r2]|] eqn:Hr;
        simpl; [|done].
      intros [= <- <-]. apply IH in Hr as (Hl2 & Hsub & Ht2 & He2 & Hs2).
      simpl in *. split_and!.
      * lia.
      * by apply sublist_skip.
      * lia.
      * auto.
      * by etrans.
Qed.

Lemma process_documents_run_witness :
  let files :=
    [("bitcoin_de.ts", [[plain_message "Done" "Fertig"]]);
     ("bitcoin_fr.ts", [replicate 10 (plain_message "Done" "Fini")])] in
  let written :=
    [("bitcoin_fr.ts", [replicate 10 (plain_message "Done" "Fini")])] in
  let r' :=
    {| tf := 0; lr := 1; have_errors := false;
       stdout := ["# 0 : Removing src/qt/locale/bitcoin_de.ts, as it contains only 1 messages"] |} in
  (length written + lr r' = length files + lr fresh_run)%nat
  ∧ written.*1 `sublist_of` files.*1
  ∧ (tf fresh_run ≤ tf r')%nat
  ∧ (have_errors fresh_run = true → have_errors r' = true)
  ∧ stdout fresh_run `prefix_of` stdout r'.
Proof.
  apply (process_documents_run
           [("bitcoin_de.ts", [[plain_message "Done" "Fertig"]]);
            ("bitcoin_fr.ts", [replicate 10 (plain_message "Done" "Fini")])]
           fresh_run).
  vm_compute. reflexivity.
Defined.

(** ** The second repair pass *)

(** X22: when the first pass has not fixed the text, the text has a [%]
    and the source a [&], every [%] of the text is replaced by [&]; the
    result has no specifier left, so that it is accepted exactly when the
    source has no specifier either, and the node is cleared otherwise. *)
Theorem second_pass_swaps_marker source source_f node r t translation_f :
  text node = Some t →
  profile_of (fix_string t) = Ok translation_f →
  source_f ≠ translation_f →
  occurs "%" (fix_string t) →
  occurs "&" source →
  let swapped := Py.replace (fix_string t) "%" "&" in
  ("%"%char ∉ chars swapped)
  ∧ profile_of swapped = Ok (∅, [])
  ∧ repair source source_f node r
    = Ok (if decide (source_f = (∅, []))
          then (set_text swapped node, report_fixed (set_text swapped node) r)
          else report_unfixable "Translation could not be fixed"
                 (set_text swapped node) r).
Proof.
  intros Htext Hp Hne Hpc Hamp swapped.
  assert ("%"%char ∉ chars swapped) as Hno
    by (apply replace_char_absent; [compute_done | by left]).
  assert (profile_of swapped = Ok (∅, [])) as Hs.
  { unfold profile_of. by rewrite find_format_specifiers_no_percent. }
  split_and!; [done..|].
  unfold repair. rewrite Htext, Hp. simpl.
  rewrite bool_decide_eq_false_2 by done.
  apply (find_present "%") in Hpc; [|done].
  apply (find_present "&") in Hamp; [|done].
  apply Z.leb_le in Hpc, Hamp. rewrite Hpc, Hamp. simpl.
  fold swapped. rewrite Hs. simpl.
  by destruct (decide (source_f = (∅, [])));
    [rewrite bool_decide_eq_true_2 | rewrite bool_decide_eq_false_2].
Qed.

Lemma second_pass_swaps_marker_witness :
  let node := translation_node (plain_message "&Amount" "&Betrag %s") in
  let swapped := Py.replace (fix_string "&Betrag %s") "%" "&" in
  let source_f : profile := (∅, []) in
  ("%"%char ∉ chars swapped)
  ∧ profile_of swapped = Ok (∅, [])
  ∧ repair "&Amount" source_f node fresh_run
    = Ok (if decide (source_f = (∅, []))
          then (set_text swapped node,
                report_fixed (set_text swapped node) fresh_run)
          else report_unfixable "Translation could not be fixed"
                 (set_text swapped node) fresh_run).
Proof.
  apply (second_pass_swaps_marker "&Amount" (∅, [])
           (translation_node (plain_message "&Amount" "&Betrag %s"))
           fresh_run "&Betrag %s" (∅, ["s"%char])).
  - reflexivity.
  - vm_compute. reflexivity.
  - vm_compute. discriminate.
  - by exists "&Betrag ", "s".
  - by exists EmptyString, "Amount".
Defined.

(** ** Translations that lost their specifiers *)

Lemma occurs_chars sub s c : occurs sub s → c ∈ chars sub → c ∈ chars s.
Proof.
  intros (pre & post & ->) Hc. rewrite !chars_app, !elem_of_app. auto.
Qed.

(** X23: when the source has specifiers and the text, after the repair
    table, has no [%] at all, no pass applies: the node is cleared and
    marked unfinished, the run is flagged and no fix is counted. *)
Theorem repair_without_marker source source_f node r t :
  text node = Some t →
  "%"%char ∉ chars (fix_string t) →
  source_f ≠ (∅, []) →
  repair source source_f node r
  = Ok (clear_translation node,
        set_have_errors
          (print "" (print "Translation could not be fixed" r)))
  ∧ Element_get "type" (clear_translation node) = Some "unfinished".
Proof.
  intros Htext Hno Hne. split; [|apply clear_translation_unfinished].
  assert (profile_of (fix_string t) = Ok (∅, [])) as Hp.
  { unfold profile_of. by rewrite find_format_specifiers_no_percent. }
  unfold repair. rewrite Htext, Hp. simpl.
  rewrite bool_decide_eq_false_2 by done.
  rewrite (find_char_absent _ _ 0 Hno). simpl.
  assert (Py.find (fix_string t) "%1" 0 = -1) as ->; [|done].
  apply find_absent; [done|]. intros Ho. apply Hno.
  apply (occurs_chars _ _ _ Ho). compute_done.
Qed.

Lemma repair_without_marker_witness :
  let node := translation_node (plain_message "%1 of %2" "alle") in
  repair "%1 of %2" ({[ "1"; "2" ]}%char, []) node fresh_run
  = Ok (clear_translation node,
        set_have_errors
          (print "" (print "Translation could not be fixed" fresh_run)))
  ∧ Element_get "type" (clear_translation node) = Some "unfinished".
Proof.
  apply (repair_without_marker "%1 of %2" ({[ "1"; "2" ]}%char, [])
           (translation_node (plain_message "%1 of %2" "alle"))
           fresh_run "alle").
  - reflexivity.
  - compute_done.
  - vm_compute. discriminate.
Defined.

(** ** The first pass and the insertion of spaces *)

Lemma scan_specifiers_spaced n s l :
  (String.length s ≤ n)%nat →
  scan_specifiers s = Ok l → "%"%char ∉ l →
  scan_specifiers (spaced s) = Ok l.
Proof.
  revert s l. induction n as [|n IH]; intros [|c s] l Hlen; simpl in Hlen;
    try lia; try done.
  cbn [scan_specifiers spaced].
  destruct (decide (c = "%"%char)) as [->|Hc].
  - destruct s as [|d s]; [done|].
    destruct (scan_specifiers s) as [l'|] eqn:Hs; [|done].
    intros [= <-] [Hd Hl']%not_elem_of_cons.
    cbn [scan_specifiers spaced].
    rewrite (decide_False (P := " "%char = "%"%char)) by done.
    rewrite (decide_True (P := "%"%char = "%"%char)) by done.
    rewrite (decide_False (P := d = "%"%char)) by done.
    destruct n as [|n]; [simpl in Hlen; lia|].
    by rewrite (IH s l' ltac:(simpl in Hlen; lia) Hs Hl').
  - intros Hs Hl. cbn [scan_specifiers]. rewrite decide_False by done.
    apply IH; [lia|done..].
Qed.

Lemma first_pass_accepts_aux source source_f node r t :
  text node = Some t → t ≠ EmptyString →
  profile_of (fix_string t) = Ok source_f →
  ∃ stored r',
    repair source source_f node r = Ok (set_text stored node, r')
    ∧ (stored = fix_string t ∨ stored = spaced (fix_string t)).
Proof.
  intros Htext Ht Hp. unfold repair. rewrite Htext, Hp. simpl.
  rewrite bool_decide_eq_true_2 by done.
  destruct (needs_spaces_spec (fix_string t)) as (b & -> & _);
    [by apply fix_string_nonempty|]. simpl.
  destruct b; eexists _, _; (split; [reflexivity|]).
  - right. apply replace_percent_spaced.
  - by left.
Qed.

(** When none of the specifiers of the accepted text is [%], the text
    that the first pass stores, with or without spaces put in, has the
    source profile. *)
Lemma first_pass_keeps_profile source node r t l :
  text node = Some t → t ≠ EmptyString →
  find_format_specifiers (fix_string t) = Ok l →
  "%"%char ∉ l →
  ∃ stored r',
    repair source (split_format_specifiers l) node r
    = Ok (set_text stored node, r')
    ∧ profile_of stored = Ok (split_format_specifiers l).
Proof.
  intros Htext Ht Hl Hno.
  assert (profile_of (fix_string t) = Ok (split_format_specifiers l)) as Hp
    by (unfold profile_of; by rewrite Hl).
  destruct (first_pass_accepts_aux source _ node r t Htext Ht Hp)
    as (stored & r' & Hr & Hstored).
  exists stored, r'. split; [done|].
  destruct Hstored as [->| ->]; [done|].
  unfold profile_of. rewrite find_format_specifiers_scan.
  rewrite find_format_specifiers_scan in Hl.
  by rewrite (scan_specifiers_spaced (String.length (fix_string t)) _ l).
Qed.
